(* ===================================================================== *)
(* SimpCop (src/main.py): the checkable file-system model and the        *)
(* prompt assembler of the main window, embedded in Rocq.                *)
(*                                                                       *)
(* CheckableFileSystemModel keeps a Python set [checked_indexes] of      *)
(* QModelIndex values; the set is a [gset Index] here.  The Qt tree the  *)
(* model walks ([rowCount], [index(i, 0, parent)], [isDir], [parent()])  *)
(* is a finite tree of files and directories.                            *)
(* ===================================================================== *)

From Stdlib Require Import ZArith Ascii String List Lia Bool SpecFloat.
From stdpp Require Import gmap strings list sets.

Local Set Warnings "-register-all,-clear-no-such-hyp".

(* --------------------------------------------------------------------- *)
(* 1. The Qt side: tree, indexes                                          *)
(* --------------------------------------------------------------------- *)

(** A file-system entry as QFileSystemModel presents it. *)
Inductive Node : Type :=
| File (name : string)
| Dir (name : string) (children : list Node).

(** A column-0 QModelIndex: the rows from the entry up to the top level,
    innermost first.  [[]] is the invalid index [QModelIndex()], the parent
    of the top-level entries; [i :: p] is [index(i, 0, p)]. *)
Abbreviation Index := (list nat).

Definition index (i : nat) (parent : Index) : Index := i :: parent.

Definition parent (idx : Index) : Index := tail idx.

Definition isValid (idx : Index) : bool :=
  match idx with [] => false | _ :: _ => true end.

Definition node_children (n : Node) : list Node :=
  match n with File _ => [] | Dir _ cs => cs end.

Definition node_name (n : Node) : string :=
  match n with File s => s | Dir s _ => s end.

Definition node_isDir (n : Node) : bool :=
  match n with File _ => false | Dir _ _ => true end.

(** Resolve a path given outermost row first. *)
Fixpoint descend (n : Node) (path : list nat) : option Node :=
  match path with
  | [] => Some n
  | i :: rest =>
      match nth_error (node_children n) i with
      | Some c => descend c rest
      | None => None
      end
  end.

(** The entry an index designates; the tree's root node stands for the
    invalid index, whose children are the top-level entries. *)
Definition node_at (tree : Node) (idx : Index) : option Node :=
  descend tree (rev idx).

(** [QFileSystemModel.rowCount(index)]. *)
Definition rowCount (tree : Node) (idx : Index) : nat :=
  match node_at tree idx with
  | Some n => length (node_children n)
  | None => 0
  end.

(** [QFileSystemModel.isDir(index)]. *)
Definition isDir (tree : Node) (idx : Index) : bool :=
  match node_at tree idx with
  | Some n => node_isDir n
  | None => false
  end.

(** [fileInfo(index).fileName()]. *)
Definition fileName (tree : Node) (idx : Index) : string :=
  match node_at tree idx with
  | Some n => node_name n
  | None => ""%string
  end.

(* --------------------------------------------------------------------- *)
(* 2. Python and Qt library functions used by the program                 *)
(* --------------------------------------------------------------------- *)

(** [range(n)]. *)
Definition range (n : nat) : list nat := seq 0 n.

Definition newline : string := String (ascii_of_nat 10) EmptyString.

(** [str.lower()] on 7-bit text. *)
Definition ascii_lower (c : ascii) : ascii :=
  let n := nat_of_ascii c in
  if (65 <=? n)%nat && (n <=? 90)%nat then ascii_of_nat (n + 32) else c.

Fixpoint lower (s : string) : string :=
  match s with
  | EmptyString => EmptyString
  | String c r => String (ascii_lower c) (lower r)
  end.

Definition is_dot (c : ascii) : bool := Ascii.eqb c "."%char.

(** The text after the last ['.'] of [s], when there is one. *)
Fixpoint after_last_dot (s : string) : option string :=
  match s with
  | EmptyString => None
  | String c r =>
      match after_last_dot r with
      | Some x => Some x
      | None => if is_dot c then Some r else None
      end
  end.

(** [QFileInfo.suffix()]: all characters after the last ['.'], empty when
    the name has none. *)
Definition suffix (name : string) : string :=
  default EmptyString (after_last_dot name).

(** The text before the last ['.'] of [s], when there is one. *)
Fixpoint before_last_dot (s : string) : option string :=
  match s with
  | EmptyString => None
  | String c r =>
      match before_last_dot r with
      | Some x => Some (String c x)
      | None => if is_dot c then Some EmptyString else None
      end
  end.

Fixpoint has_non_dot (s : string) : bool :=
  match s with
  | EmptyString => false
  | String c r => negb (is_dot c) || has_non_dot r
  end.

(** [os.path.splitext(filename)[0]] for a name without separators: cut at
    the last dot unless only dots come before it. *)
Definition splitext_root (filename : string) : string :=
  match before_last_dot filename with
  | Some root => if has_non_dot root then root else filename
  | None => filename
  end.

(** [s.endswith(suf)]. *)
Fixpoint endswith (s suf : string) : bool :=
  String.eqb s suf
  || match s with
     | EmptyString => false
     | String _ r => endswith r suf
     end.

(** [os.path.join(a, b)] for a relative [b]. *)
Definition path_join (a b : string) : string := a +:+ "/" +:+ b.

(** [sep.join(parts)]. *)
Definition join (sep : string) (parts : list string) : string :=
  String.concat sep parts.

(** [str.isspace()] on one character with a code below 256. *)
Definition isspace (c : ascii) : bool :=
  let n := nat_of_ascii c in
  ((9 <=? n)%nat && (n <=? 13)%nat) || ((28 <=? n)%nat && (n <=? 32)%nat)
  || (n =? 133)%nat || (n =? 160)%nat.

Definition is_empty (s : string) : bool :=
  match s with EmptyString => true | String _ _ => false end.

(** [text.split()]: [cur] is the word being read. *)
Fixpoint split_from (text cur : string) : list string :=
  match text with
  | EmptyString => if is_empty cur then [] else [cur]
  | String c r =>
      if isspace c then
        (if is_empty cur then split_from r EmptyString
         else cur :: split_from r EmptyString)
      else split_from r (cur +:+ String c EmptyString)
  end.

Definition split (text : string) : list string := split_from text EmptyString.

Fixpoint lstrip (s : string) : string :=
  match s with
  | EmptyString => EmptyString
  | String c r => if isspace c then lstrip r else s
  end.

(** [s.strip()]. *)
Definition strip (s : string) : string :=
  String.rev (lstrip (String.rev (lstrip s))).

Definition line_feed : ascii := ascii_of_nat 10.

Definition is_carriage_return (c : ascii) : bool := Ascii.eqb c (ascii_of_nat 13).

Definition is_line_feed (c : ascii) : bool := Ascii.eqb c line_feed.

(** What [read()] returns for a file opened in text mode with the default
    [newline=None]: each of ['\r\n'], ['\r'] and ['\n'] in the file
    comes back as ['\n']. *)
Fixpoint universal_newlines (s : string) : string :=
  match s with
  | EmptyString => EmptyString
  | String c r =>
      if is_carriage_return c then
        match r with
        | String c' r' =>
            if is_line_feed c' then String line_feed (universal_newlines r')
            else String line_feed (universal_newlines r)
        | EmptyString => String line_feed EmptyString
        end
      else String c (universal_newlines r)
  end.

(** A Python [dict] with [str] keys and values, in insertion order. *)
Abbreviation dict := (list (string * string)).

(** [d[k] = v]. *)
Fixpoint dict_set (k v : string) (d : dict) : dict :=
  match d with
  | [] => [(k, v)]
  | (k', v') :: r =>
      if String.eqb k' k then (k', v) :: r else (k', v') :: dict_set k v r
  end.

(** [d[k]], [None] standing for [k not in d]. *)
Fixpoint dict_get (k : string) (d : dict) : option string :=
  match d with
  | [] => None
  | (k', v') :: r => if String.eqb k' k then Some v' else dict_get k r
  end.

Definition dict_keys (d : dict) : list string := map fst d.

(** Python floats are IEEE-754 binary64 values. *)
Definition float_of_int (n : Z) : spec_float := binary_normalize 53 1024 n 0 false.

Definition float_mul (x y : spec_float) : spec_float := SFmul 53 1024 x y.

(** The literal [1.2]: the binary64 value nearest to 6/5. *)
Definition float_1_2 : spec_float := S754_finite false 5404319552844595 (-52).

(** [int(x)]: truncation towards zero; [None] when Python raises
    (OverflowError on an infinity, ValueError on a NaN). *)
Definition int_of_float (x : spec_float) : option Z :=
  match x with
  | S754_zero _ => Some 0%Z
  | S754_finite s m e =>
      Some (cond_Zopp s
              (if (0 <=? e)%Z then (Zpos m * 2 ^ e)%Z else (Zpos m / 2 ^ (- e))%Z))
  | S754_infinity _ => None
  | S754_nan => None
  end.

(* --------------------------------------------------------------------- *)
(* 3. CheckableFileSystemModel                                            *)
(* --------------------------------------------------------------------- *)

(** Qt.CheckState. *)
Inductive CheckState : Type := Unchecked | PartiallyChecked | Checked.

Definition is_Checked (v : CheckState) : bool :=
  match v with Checked => true | _ => false end.

Section Model.

(** The tree shown by the model; the operations below do not change it. *)
Variable tree : Node.

(** [is_checked(index)]. *)
Definition is_checked (checked_indexes : gset Index) (idx : Index) : bool :=
  bool_decide (idx ∈ checked_indexes).

(** [data(index, Qt.CheckStateRole)] on column 0. *)
Definition data (checked_indexes : gset Index) (idx : Index) : CheckState :=
  if is_checked checked_indexes idx then Checked else Unchecked.

(** Lines 37-40 of [setData]. *)
Definition toggle (idx : Index) (value : CheckState) (s : gset Index) : gset Index :=
  if is_Checked value then {[idx]} ∪ s else s ∖ {[idx]}.

(** The counting loop of [update_parent] (lines 57-64): the pair
    [(checked, total)] over the rows of [p]. *)
Definition count_children (p : Index) (s : gset Index) : nat * nat :=
  fold_left
    (fun (acc : nat * nat) (i : nat) =>
       let '(checked, total) := acc in
       let child := index i p in
       if negb (isDir tree child) then
         (if bool_decide (child ∈ s) then S checked else checked, S total)
       else acc)
    (range (rowCount tree p)) (0, 0).

(** [update_parent(index)]: recursion on the index, whose parent is its
    tail. *)
Fixpoint update_parent (idx : Index) (s : gset Index) : gset Index :=
  match idx with
  | [] => s
  | _ :: p =>
      if isValid p then
        let '(checked, total) := count_children p s in
        if (0 <? total)%nat then
          let s' :=
            if (checked =? total)%nat then {[p]} ∪ s
            else if (checked =? 0)%nat then s ∖ {[p]}
            else {[p]} ∪ s in
          update_parent p s'
        else s
      else s
  end.

(** The loop of [update_children(index, value)] (lines 48-52), given the
    [setData] it calls back. *)
Definition update_children_with
    (setData : Index → CheckState → gset Index → option (gset Index))
    (idx : Index) (value : CheckState) (s : gset Index) : option (gset Index) :=
  fold_left
    (fun (acc : option (gset Index)) (i : nat) =>
       s' ← acc;
       let child := index i idx in
       if isDir tree child then Some s'
       else setData child value s')
    (range (rowCount tree idx)) (Some s).

(** [setData(index, value, Qt.CheckStateRole)] on a column-0 index.
    [setData] and [update_children] call each other, so the recursion is
    bounded by [fuel]; [None] means the bound was hit.  The [dataChanged]
    signals only notify the views. *)
Fixpoint setData (fuel : nat) (idx : Index) (value : CheckState)
    (s : gset Index) : option (gset Index) :=
  match fuel with
  | O => None
  | S fuel' =>
      s2 ← update_children_with (setData fuel') idx value (toggle idx value s);
      Some (update_parent idx s2)
  end.

Definition update_children (fuel : nat) :
    Index → CheckState → gset Index → option (gset Index) :=
  update_children_with (setData fuel).

(** [for index in indexes: setData(index, value, Qt.CheckStateRole)]. *)
Definition setData_each (fuel : nat) (indexes : list Index) (value : CheckState)
    (s : gset Index) : option (gset Index) :=
  fold_left (fun acc idx => s' ← acc; setData fuel idx value s') indexes (Some s).

(** The allow-list of the model. *)
Variable extensions : list string.

(** [index_valid(index)]. *)
Definition index_valid (idx : Index) : bool :=
  isDir tree idx || bool_decide (lower (suffix (fileName tree idx)) ∈ extensions).

(** [stack.pop()]: the last element and the rest. *)
Definition pop (stack : list Index) : option (Index * list Index) :=
  match rev stack with
  | [] => None
  | top :: r => Some (top, rev r)
  end.

(** The [for] loop of [get_all_file_indexes] (lines 90-96) over the rows
    of [p], on the pair [(stack, files)]. *)
Definition scan_rows (p : Index) (st : list Index * list Index) :
    list Index * list Index :=
  fold_left
    (fun (acc : list Index * list Index) (i : nat) =>
       let '(stack, files) := acc in
       let child := index i p in
       if isDir tree child then (stack ++ [child], files)
       else if index_valid child then (stack, files ++ [child])
       else (stack, files))
    (range (rowCount tree p)) st.

(** The [while stack] loop (lines 88-96); [None] when [fuel] iterations
    did not empty the stack. *)
Fixpoint walk (fuel : nat) (stack files : list Index) : option (list Index) :=
  match pop stack with
  | None => Some files
  | Some (p, stack') =>
      match fuel with
      | O => None
      | S fuel' =>
          let '(stack'', files') := scan_rows p (stack', files) in
          walk fuel' stack'' files'
      end
  end.

(** [get_all_file_indexes()], [root] being [self.index(self.rootPath())]. *)
Definition get_all_file_indexes (fuel : nat) (root : Index) : option (list Index) :=
  walk fuel [root] [].

End Model.

(* --------------------------------------------------------------------- *)
(* 4. MainWindow                                                          *)
(* --------------------------------------------------------------------- *)

(** What the program sees of the machine it runs on. *)
Record Host : Type := {
  (** the entries QFileSystemModel presents *)
  tree : Node;
  (** [QFileSystemModel.index(path)] *)
  path_index : string → Index;
  (** [QFileSystemModel.filePath(index)] *)
  filePath : Index → string;
  (** [open(path, 'r', encoding='utf-8').read()], [None] when it raises *)
  read_text : string → option string;
  (** [open(path, 'w', encoding='utf-8')] succeeds *)
  writable : string → bool;
  os_isdir : string → bool;
  os_isfile : string → bool;
  os_listdir : string → list string;
  (** [os.path.relpath(path, start)] *)
  os_relpath : string → string → string;
  (** [os.path.dirname(sys.argv[0])] *)
  app_dir : string
}.

(** The fields of CheckableFileSystemModel. *)
Record Model : Type := {
  checked_indexes : gset Index;
  extensions : list string;
  rootPath : string
}.

(** The fields of MainWindow that the handlers read or write; the last
    one is the content of [last_directory.txt] on disk, [None] when the
    file is missing, on a platform that writes ['\n'] as it is
    ([os.linesep] is ['\n']).  The labels are functions of the assembled
    text, see [update_difficulty_level] and [update_token_count]. *)
Record MainWindow : Type := {
  base_directory : option string;
  model : Model;
  tree_rootIndex : Index;
  tasktypes : dict;
  presets : dict;
  tasktype_checkbox : bool;
  presets_checkbox : bool;
  tasktype_combo : string;
  presets_combo : string;
  task_instruction : string;
  final_prompt : string;
  file_watcher : list string;
  last_directory_txt : option string
}.

(** [self.extensions] (lines 110-117). *)
Definition default_extensions : list string :=
  [ "py"; "js"; "ts"; "svelte"; "css"; "html"; "json"; "txt";
    "md"; "xml"; "yml"; "yaml"; "sql"; "jsx"; "tsx"; "php";
    "rb"; "java"; "c"; "cpp"; "cs"; "sh"; "bash"; "go";
    "rs"; "swift"; "kt"; "r"; "dart"; "scala"; "ini";
    "env"; "toml"; "scss"; "less"; "pl"; "lua"; "ps1";
    "vb"; "bat"; "coffee" ]%string.

Definition with_checked (s : gset Index) (m : Model) : Model :=
  {| checked_indexes := s; extensions := extensions m; rootPath := rootPath m |}.

Definition setRootPath (path : string) (m : Model) : Model :=
  {| checked_indexes := checked_indexes m; extensions := extensions m;
     rootPath := path |}.

Definition with_model (m : Model) (w : MainWindow) : MainWindow :=
  {| base_directory := base_directory w; model := m;
     tree_rootIndex := tree_rootIndex w;
     tasktypes := tasktypes w; presets := presets w;
     tasktype_checkbox := tasktype_checkbox w;
     presets_checkbox := presets_checkbox w;
     tasktype_combo := tasktype_combo w; presets_combo := presets_combo w;
     task_instruction := task_instruction w; final_prompt := final_prompt w;
     file_watcher := file_watcher w;
     last_directory_txt := last_directory_txt w |}.

Definition with_base_directory (d : string) (root : Index) (w : MainWindow) : MainWindow :=
  {| base_directory := Some d; model := model w;
     tree_rootIndex := root;
     tasktypes := tasktypes w; presets := presets w;
     tasktype_checkbox := tasktype_checkbox w;
     presets_checkbox := presets_checkbox w;
     tasktype_combo := tasktype_combo w; presets_combo := presets_combo w;
     task_instruction := task_instruction w; final_prompt := final_prompt w;
     file_watcher := file_watcher w;
     last_directory_txt := last_directory_txt w |}.

Definition with_final_prompt (text : string) (w : MainWindow) : MainWindow :=
  {| base_directory := base_directory w; model := model w;
     tree_rootIndex := tree_rootIndex w;
     tasktypes := tasktypes w; presets := presets w;
     tasktype_checkbox := tasktype_checkbox w;
     presets_checkbox := presets_checkbox w;
     tasktype_combo := tasktype_combo w; presets_combo := presets_combo w;
     task_instruction := task_instruction w; final_prompt := text;
     file_watcher := file_watcher w;
     last_directory_txt := last_directory_txt w |}.

Definition with_file_watcher (paths : list string) (w : MainWindow) : MainWindow :=
  {| base_directory := base_directory w; model := model w;
     tree_rootIndex := tree_rootIndex w;
     tasktypes := tasktypes w; presets := presets w;
     tasktype_checkbox := tasktype_checkbox w;
     presets_checkbox := presets_checkbox w;
     tasktype_combo := tasktype_combo w; presets_combo := presets_combo w;
     task_instruction := task_instruction w; final_prompt := final_prompt w;
     file_watcher := paths;
     last_directory_txt := last_directory_txt w |}.

Definition with_last_directory_txt (content : option string) (w : MainWindow) : MainWindow :=
  {| base_directory := base_directory w; model := model w;
     tree_rootIndex := tree_rootIndex w;
     tasktypes := tasktypes w; presets := presets w;
     tasktype_checkbox := tasktype_checkbox w;
     presets_checkbox := presets_checkbox w;
     tasktype_combo := tasktype_combo w; presets_combo := presets_combo w;
     task_instruction := task_instruction w; final_prompt := final_prompt w;
     file_watcher := file_watcher w;
     last_directory_txt := content |}.

(** Truth value of [self.base_directory] in an [if]. *)
Definition truthy (d : option string) : bool :=
  match d with
  | Some s => negb (is_empty s)
  | None => false
  end.

Inductive Difficulty : Type := Easy | Moderate | Hard.

(** [update_difficulty_level(file_count)]: the level shown. *)
Definition update_difficulty_level (file_count : nat) : Difficulty :=
  if (file_count <=? 2)%nat then Easy
  else if (3 <=? file_count)%nat && (file_count <=? 5)%nat then Moderate
  else Hard.

(** [update_token_count(text)]: the [estimated_tokens] shown, [None] when
    [int] raises. *)
Definition update_token_count (text : string) : option Z :=
  let word_count := Z.of_nat (length (split text)) in
  int_of_float (float_mul (float_of_int word_count) float_1_2).

Section Window.

Variable host : Host.

Local Open Scope string_scope.

(** The loop of [load_presets] and of [load_tasktypes] (lines 291-300 and
    308-317) over the names [os.listdir] returned. *)
Definition load_dir (dir : string) (filenames : list string) : dict :=
  fold_left
    (fun (d : dict) (filename : string) =>
       if endswith filename ".txt" then
         let filepath := path_join dir filename in
         match read_text host filepath with
         | Some content => dict_set (splitext_root filename) content d
         | None => d
         end
       else d)
    filenames [].

(** [load_presets()] and [load_tasktypes()]: the dict and the current
    text of the combo box, which shows the keys. *)
Definition load_from (sub : string) : dict * string :=
  let dir := path_join (app_dir host) sub in
  if os_isdir host dir then
    let d := load_dir dir (os_listdir host dir) in
    (d, hd "" (dict_keys d))
  else ([], "").

Definition load_presets : dict * string := load_from "presets".

Definition load_tasktypes : dict * string := load_from "tasktype".

(** [update_file_watcher()]: the paths watched afterwards. *)
Definition paths_to_watch (m : Model) : list string :=
  fold_left
    (fun (paths : list string) (idx : Index) =>
       if isDir (tree host) idx then paths
       else
         let file_path := filePath host idx in
         if os_isfile host file_path then (paths ++ [file_path])%list else paths)
    (elements (checked_indexes m)) [].

Definition update_file_watcher (w : MainWindow) : MainWindow :=
  with_file_watcher (paths_to_watch (model w)) w.

(** The loop over the checked indexes in [update_final_prompt] (lines
    361-376): [(files_content, selected_file_count)].  A Python set has no
    order of its own; [elements] fixes one. *)
Definition read_selected (base : string) (m : Model) : list string * nat :=
  fold_left
    (fun (acc : list string * nat) (idx : Index) =>
       let '(files_content, selected_file_count) := acc in
       if isDir (tree host) idx then acc
       else if negb (index_valid (tree host) (extensions m) idx) then acc
       else
         let file_path := filePath host idx in
         match read_text host file_path with
         | Some content =>
             let relative_path := os_relpath host file_path base in
             let header := "<!-- " +:+ relative_path +:+ " -->" in
             let footer := "<!-- end of " +:+ relative_path +:+ " -->" in
             ((files_content ++ [header +:+ newline +:+ content +:+ newline +:+ footer])%list,
              S selected_file_count)
         | None => acc
         end)
    (elements (checked_indexes m)) ([], 0).

(** [content_list] of [update_final_prompt] (lines 344-386). *)
Definition content_list (w : MainWindow) : list string :=
  let tasktype_part :=
    if tasktype_checkbox w then
      let tasktype_name := tasktype_combo w in
      match dict_get tasktype_name (tasktypes w) with
      | Some text =>
          if is_empty tasktype_name then []
          else ["<!-- Tasktype: " +:+ tasktype_name +:+ " -->"; text]
      | None => []
      end
    else [] in
  let instruction_part := ["<!-- Task Instruction -->"; task_instruction w] in
  let files_part :=
    match base_directory w with
    | Some base =>
        if is_empty base then []
        else
          let files_content := fst (read_selected base (model w)) in
          match files_content with
          | [] => []
          | _ :: _ =>
              ["<!-- Selected Files -->"; join (newline +:+ newline) files_content]
          end
    | None => []
    end in
  let preset_part :=
    if presets_checkbox w then
      let preset_name := presets_combo w in
      match dict_get preset_name (presets w) with
      | Some text =>
          if is_empty preset_name then []
          else ["<!-- Preset: " +:+ preset_name +:+ " -->"; text]
      | None => []
      end
    else [] in
  (tasktype_part ++ instruction_part ++ files_part ++ preset_part)%list.

Definition final_prompt_content (w : MainWindow) : string :=
  join (newline +:+ newline) (content_list w).

(** [update_final_prompt()]. *)
Definition update_final_prompt (w : MainWindow) : MainWindow :=
  with_final_prompt (final_prompt_content w) w.

Definition config_file : string := path_join (app_dir host) "last_directory.txt".

(** [save_last_directory(directory)]: a failing write is caught. *)
Definition save_last_directory (directory : string) (w : MainWindow) : MainWindow :=
  if writable host config_file then with_last_directory_txt (Some directory) w
  else w.

(** [select_base_directory()], [directory] being what the dialog returned
    (empty when cancelled). *)
Definition select_base_directory (directory : string) (w : MainWindow) : MainWindow :=
  if is_empty directory then w
  else
    let w1 := with_base_directory directory (path_index host directory) w in
    let w2 := with_model (setRootPath directory (model w1)) w1 in
    let w3 := with_model (with_checked ∅ (model w2)) w2 in
    let w4 := update_file_watcher w3 in
    let w5 := update_final_prompt w4 in
    save_last_directory directory w5.

(** [load_last_directory()]: the file is read in text mode, so the text
    stripped is the content with its line ends translated. *)
Definition load_last_directory (w : MainWindow) : MainWindow :=
  match last_directory_txt w with
  | Some content =>
      let directory := strip (universal_newlines content) in
      if os_isdir host directory then
        let w1 := with_base_directory directory (path_index host directory) w in
        let w2 := with_model (setRootPath directory (model w1)) w1 in
        update_final_prompt w2
      else w
  | None => w
  end.

(** [MainWindow.__init__()], given what [last_directory.txt] holds. *)
Definition init (last_directory : option string) : MainWindow :=
  load_last_directory
    {| base_directory := None;
       model := {| checked_indexes := ∅; extensions := default_extensions;
                   rootPath := "" |};
       tree_rootIndex := [];
       tasktypes := fst load_tasktypes; presets := fst load_presets;
       tasktype_checkbox := true; presets_checkbox := true;
       tasktype_combo := snd load_tasktypes; presets_combo := snd load_presets;
       task_instruction := ""; final_prompt := "";
       file_watcher := [];
       last_directory_txt := last_directory |}.

(** [tree_item_clicked(index)] and [file_changed(path)]. *)
Definition tree_item_clicked (w : MainWindow) : MainWindow :=
  update_final_prompt (update_file_watcher w).

Definition file_changed (w : MainWindow) : MainWindow := update_final_prompt w.

(** [select_all_files()]. *)
Definition select_all_files (fuel : nat) (w : MainWindow) : option MainWindow :=
  if negb (truthy (base_directory w)) then Some w
  else
    let m := model w in
    file_indexes ← get_all_file_indexes (tree host) (extensions m) fuel
                     (path_index host (rootPath m));
    s ← setData_each (tree host) fuel file_indexes Checked (checked_indexes m);
    Some (update_final_prompt (with_model (with_checked s m) w)).

(** [deselect_all_files()]. *)
Definition deselect_all_files (fuel : nat) (w : MainWindow) : option MainWindow :=
  if negb (truthy (base_directory w)) then Some w
  else
    let m := model w in
    file_indexes ← get_all_file_indexes (tree host) (extensions m) fuel
                     (path_index host (rootPath m));
    s ← setData_each (tree host) fuel file_indexes Unchecked (checked_indexes m);
    Some (update_final_prompt (with_model (with_checked s m) w)).

(** A click on the check box of [idx]: the view calls
    [setData(idx, value, Qt.CheckStateRole)], then the [clicked] handler
    runs. *)
Definition check_item (fuel : nat) (idx : Index) (value : CheckState)
    (w : MainWindow) : option MainWindow :=
  s ← setData (tree host) fuel idx value (checked_indexes (model w));
  Some (tree_item_clicked (with_model (with_checked s (model w)) w)).

End Window.

(* --------------------------------------------------------------------- *)
(* 5. Notions the statements below are phrased with                       *)
(* --------------------------------------------------------------------- *)

(** The indexes [index(i, 0, p)] for [i] in [range(rowCount(p))]. *)
Definition children (tree : Node) (p : Index) : list Index :=
  map (fun i => index i p) (range (rowCount tree p)).

(** The children of [p] that are not directories: what [update_children]
    recurses into and what [update_parent] counts. *)
Definition file_children (tree : Node) (p : Index) : list Index :=
  filter (fun c => isDir tree c = false) (children tree p).

Definition dir_children (tree : Node) (p : Index) : list Index :=
  filter (fun c => isDir tree c = true) (children tree p).

(** [idx] designates a file of the tree. *)
Definition is_file (tree : Node) (idx : Index) : bool :=
  match node_at tree idx with
  | Some (File _) => true
  | _ => false
  end.

(** [x] lies strictly below [d]. *)
Definition below (d x : Index) : Prop := ∃ pre : list nat, pre ≠ [] ∧ x = pre ++ d.


(** The ancestors that [update_parent(idx)] recomputes: it climbs while
    the parent is valid and has a child that is not a directory. *)
Fixpoint touched (tree : Node) (idx : Index) : list Index :=
  match idx with
  | [] => []
  | _ :: p =>
      if isValid p && bool_decide (file_children tree p ≠ [])
      then p :: touched tree p else []
  end.

(** The aggregate [update_parent] stores for [p]: whether one of its file
    children is checked. *)
Definition aggregate (tree : Node) (p : Index) (s : gset Index) : bool :=
  bool_decide (Exists (fun c => c ∈ s) (file_children tree p)).

(** Every valid index with file children is checked exactly when one of
    those children is: the aggregate [update_parent] stores. *)
Definition consistent (tree : Node) (s : gset Index) : Prop :=
  ∀ p : Index, isValid p = true → file_children tree p ≠ [] →
    (p ∈ s ↔ ∃ c, c ∈ file_children tree p ∧ c ∈ s).

(** [D] is checked and so is one of its file children. *)
Definition checked_with_child (tree : Node) (D : Index) (st : gset Index) : Prop :=
  D ∈ st ∧ ∃ c, c ∈ file_children tree D ∧ c ∈ st.

(** The selection sets the model can hold while it presents one and the
    same [tree]: empty at start and after [checked_indexes.clear()],
    changed by [setData] only.  Rows that the model loads later (a
    directory is read when it is expanded) make another tree, for which a
    set reached before need not be reachable. *)
Inductive reachable (tree : Node) : gset Index → Prop :=
| reachable_empty : reachable tree ∅
| reachable_setData (fuel : nat) (idx : Index) (value : CheckState)
    (s s' : gset Index) :
    reachable tree s → setData tree fuel idx value s = Some s' →
    reachable tree s'.

(** What [setData] on the indexes of [F], one after the other, can change:
    those indexes and the ancestors their climbs go through. *)
Definition affected (tree : Node) (F : list Index) (x : Index) : Prop :=
  x ∈ F ∨ ∃ f, f ∈ F ∧ x ∈ touched tree f.

(** What [setData] does to an index without file children: the toggle,
    then the climb. *)
Definition setData_leaf (tree : Node) (c : Index) (value : CheckState)
    (s : gset Index) : gset Index :=
  update_parent tree c (toggle c value s).

(** What [setData(idx, value)] returns when the fuel suffices. *)
Definition setData_result (tree : Node) (idx : Index) (value : CheckState)
    (s : gset Index) : gset Index :=
  update_parent tree idx
    (fold_left (fun s' c => setData_leaf tree c value s')
       (file_children tree idx) (toggle idx value s)).

(** Iterations of the [while] loop of [get_all_file_indexes] that one
    stack entry causes: itself and the directories below it. *)
Fixpoint walk_cost (n : Node) : nat :=
  match n with
  | File _ => 1
  | Dir _ cs => S (list_sum (map (fun c => if node_isDir c then walk_cost c else 0) cs))
  end.

Definition walk_cost_at (tree : Node) (idx : Index) : nat :=
  match node_at tree idx with
  | Some n => walk_cost n
  | None => 1
  end.

(** What the [while] loop of [get_all_file_indexes] keeps true: nothing is
    twice on the stack or among the files found, no stack entry lies
    below another, and no file found lies below a stack entry. *)
Definition walk_invariant (stack files : list Index) : Prop :=
  NoDup stack ∧ NoDup files
  ∧ (∀ d1 d2, d1 ∈ stack → d2 ∈ stack → ¬ below d1 d2)
  ∧ (∀ x d, x ∈ files → d ∈ stack → ¬ below d x).

(** An extension matches the allow-list when it equals one of its entries
    up to letter case. *)
Definition matches_allow_list (exts : list string) (ext : string) : Prop :=
  ∃ e : string, e ∈ exts ∧ lower ext = lower e.

(** The number of whitespace-separated words of a text: the positions
    where a character that is not whitespace starts the text or follows
    whitespace. *)
Fixpoint count_word_starts (after_space : bool) (text : string) : nat :=
  match text with
  | EmptyString => 0
  | String c r =>
      (if after_space && negb (isspace c) then 1 else 0)
      + count_word_starts (isspace c) r
  end.

Definition number_of_words (text : string) : nat := count_word_starts true text.

(** The section of the document for one file that was read. *)
Definition file_section (relative_path content : string) : string :=
  ("<!-- " +:+ relative_path +:+ " -->") +:+ newline +:+ content +:+ newline
  +:+ ("<!-- end of " +:+ relative_path +:+ " -->").

(** [a] occurs in [b]. *)
Definition occurs_in (a b : string) : Prop := ∃ pre post : string, b = pre +:+ a +:+ post.

(* --------------------------------------------------------------------- *)
(* 6. A sample machine                                                    *)
(* --------------------------------------------------------------------- *)

Module Sample.

Local Open Scope string_scope.

(** [/proj] holds [a.py], [B.PY], [logo.png], the directory [sub] with
    [c.py], and the empty directory [empty]. *)
Definition proj_tree : Node :=
  Dir "" [Dir "proj" [File "a.py"; File "B.PY"; File "logo.png";
                      Dir "sub" [File "c.py"]; Dir "empty" []]].

(** [/top] holds only the directory [sub] with [c.py]. *)
Definition nested_tree : Node :=
  Dir "" [Dir "top" [Dir "sub" [File "c.py"]]].

Definition proj : Index := [0].
Definition a_py : Index := [0; 0].
Definition b_py : Index := [1; 0].
Definition logo_png : Index := [2; 0].
Definition sub : Index := [3; 0].
Definition c_py : Index := [0; 3; 0].

Definition top : Index := [0].
Definition top_sub : Index := [0; 0].
Definition top_c_py : Index := [0; 0; 0].

(** [filePath] by the names along the index. *)
Fixpoint path_of (t : Node) (rows : list nat) : string :=
  match rows with
  | [] => ""
  | i :: rest =>
      match nth_error (node_children t) i with
      | Some c => "/" +:+ node_name c +:+ path_of c rest
      | None => ""
      end
  end.

(** Reading [/proj/B.PY] fails, and so does reading the preset
    [broken.txt]. *)
Definition sample_read (path : string) : option string :=
  if String.eqb path "/proj/a.py" then Some "print(1)"
  else if String.eqb path "/proj/sub/c.py" then Some "x = 2"
  else if String.eqb path "/app/presets/short.txt" then Some "Be brief."
  else if String.eqb path "/app/presets/long.txt" then Some "Explain."
  else if String.eqb path "/app/tasktype/fix.txt" then Some "Fix the bug."
  else None.

Definition sample_listdir (path : string) : list string :=
  if String.eqb path "/app/presets" then ["short.txt"; "broken.txt"; "notes.md"; "long.txt"]
  else if String.eqb path "/app/tasktype" then ["fix.txt"]
  else [].

Definition host : Host :=
  {| tree := proj_tree;
     path_index := fun p => if String.eqb p "/proj" then proj else [];
     filePath := fun idx => path_of proj_tree (rev idx);
     read_text := sample_read;
     writable := fun _ => true;
     os_isdir := fun p => String.eqb p "/proj" || String.eqb p "/app/presets"
                          || String.eqb p "/app/tasktype";
     os_isfile := fun p => bool_decide (is_Some (sample_read p));
     os_listdir := sample_listdir;
     os_relpath := fun p start => p;
     app_dir := "/app" |}.

(** The window after start-up without a saved directory, and after
    [/proj] was chosen. *)
Definition fresh : MainWindow := init host None.

Definition opened : MainWindow := select_base_directory host "/proj" fresh.

(** [/proj] open with the picture and the directory [sub] checked. *)
Definition marked : MainWindow :=
  with_model (with_checked {[logo_png; sub]} (model opened)) opened.

(** [/proj] open with its three Python files checked. *)
Definition selected : MainWindow :=
  with_model (with_checked {[a_py; b_py; c_py]} (model opened)) opened.

End Sample.

(* --------------------------------------------------------------------- *)
(* 6b. The edits wired to update_final_prompt, and the windows reached    *)
(* --------------------------------------------------------------------- *)

Definition with_task_instruction (text : string) (w : MainWindow) : MainWindow :=
  {| base_directory := base_directory w; model := model w;
     tree_rootIndex := tree_rootIndex w;
     tasktypes := tasktypes w; presets := presets w;
     tasktype_checkbox := tasktype_checkbox w;
     presets_checkbox := presets_checkbox w;
     tasktype_combo := tasktype_combo w; presets_combo := presets_combo w;
     task_instruction := text; final_prompt := final_prompt w;
     file_watcher := file_watcher w;
     last_directory_txt := last_directory_txt w |}.

Definition with_tasktype (checked : bool) (name : string) (w : MainWindow) : MainWindow :=
  {| base_directory := base_directory w; model := model w;
     tree_rootIndex := tree_rootIndex w;
     tasktypes := tasktypes w; presets := presets w;
     tasktype_checkbox := checked;
     presets_checkbox := presets_checkbox w;
     tasktype_combo := name; presets_combo := presets_combo w;
     task_instruction := task_instruction w; final_prompt := final_prompt w;
     file_watcher := file_watcher w;
     last_directory_txt := last_directory_txt w |}.

Definition with_preset (checked : bool) (name : string) (w : MainWindow) : MainWindow :=
  {| base_directory := base_directory w; model := model w;
     tree_rootIndex := tree_rootIndex w;
     tasktypes := tasktypes w; presets := presets w;
     tasktype_checkbox := tasktype_checkbox w;
     presets_checkbox := checked;
     tasktype_combo := tasktype_combo w; presets_combo := name;
     task_instruction := task_instruction w; final_prompt := final_prompt w;
     file_watcher := file_watcher w;
     last_directory_txt := last_directory_txt w |}.

Section Signals.

Variable host : Host.

(** [task_instruction.textChanged] (line 199): the user edited the
    instruction. *)
Definition task_instruction_changed (text : string) (w : MainWindow) : MainWindow :=
  update_final_prompt host (with_task_instruction text w).

(** [tasktype_checkbox.stateChanged] (line 171). *)
Definition tasktype_checkbox_changed (checked : bool) (w : MainWindow) : MainWindow :=
  update_final_prompt host (with_tasktype checked (tasktype_combo w) w).

(** [tasktype_combo.currentIndexChanged] (line 172). *)
Definition tasktype_combo_changed (name : string) (w : MainWindow) : MainWindow :=
  update_final_prompt host (with_tasktype (tasktype_checkbox w) name w).

(** [presets_checkbox.stateChanged] (line 185). *)
Definition presets_checkbox_changed (checked : bool) (w : MainWindow) : MainWindow :=
  update_final_prompt host (with_preset checked (presets_combo w) w).

(** [presets_combo.currentIndexChanged] (line 186). *)
Definition presets_combo_changed (name : string) (w : MainWindow) : MainWindow :=
  update_final_prompt host (with_preset (presets_checkbox w) name w).

End Signals.

(** The windows the program can be in: the one [__init__] builds, and
    what the handlers make of a window.  The file system is the one of
    [host] throughout, and text typed into the final prompt pane itself
    runs no handler. *)
Inductive window_reachable (host : Host) : MainWindow → Prop :=
| reached_init (last_directory : option string) :
    window_reachable host (init host last_directory)
| reached_select_base_directory (directory : string) (w : MainWindow) :
    window_reachable host w →
    window_reachable host (select_base_directory host directory w)
| reached_check_item (fuel : nat) (idx : Index) (value : CheckState)
    (w w' : MainWindow) :
    window_reachable host w → check_item host fuel idx value w = Some w' →
    window_reachable host w'
| reached_tree_item_clicked (w : MainWindow) :
    window_reachable host w → window_reachable host (tree_item_clicked host w)
| reached_file_changed (w : MainWindow) :
    window_reachable host w → window_reachable host (file_changed host w)
| reached_select_all_files (fuel : nat) (w w' : MainWindow) :
    window_reachable host w → select_all_files host fuel w = Some w' →
    window_reachable host w'
| reached_deselect_all_files (fuel : nat) (w w' : MainWindow) :
    window_reachable host w → deselect_all_files host fuel w = Some w' →
    window_reachable host w'
| reached_task_instruction_changed (text : string) (w : MainWindow) :
    window_reachable host w →
    window_reachable host (task_instruction_changed host text w)
| reached_tasktype_checkbox_changed (checked : bool) (w : MainWindow) :
    window_reachable host w →
    window_reachable host (tasktype_checkbox_changed host checked w)
| reached_tasktype_combo_changed (name : string) (w : MainWindow) :
    window_reachable host w →
    window_reachable host (tasktype_combo_changed host name w)
| reached_presets_checkbox_changed (checked : bool) (w : MainWindow) :
    window_reachable host w →
    window_reachable host (presets_checkbox_changed host checked w)
| reached_presets_combo_changed (name : string) (w : MainWindow) :
    window_reachable host w →
    window_reachable host (presets_combo_changed host name w).

(** The text holds no ['\r']. *)
Fixpoint no_carriage_return (text : string) : bool :=
  match text with
  | EmptyString => true
  | String c r => negb (is_carriage_return c) && no_carriage_return r
  end.

(** Every character of the text is whitespace. *)
Fixpoint all_space (text : string) : bool :=
  match text with
  | EmptyString => true
  | String c r => isspace c && all_space r
  end.

(* ===================================================================== *)
(* Theorems                                                               *)
(* ===================================================================== *)

(* --------------------------------------------------------------------- *)
(* 7. The tree and the counting loop                                      *)
(* --------------------------------------------------------------------- *)

Section TreeFacts.

Variable tree : Node.

Lemma descend_app (n : Node) (p q : list nat) :
  descend n (p ++ q) = descend n p ≫= fun m => descend m q.
Proof.
  revert n. induction p as [|i p IH]; intros n; simpl; [done|].
  destruct (nth_error (node_children n) i); simpl; [apply IH|done].
Qed.

Lemma node_at_cons (i : nat) (p : Index) :
  node_at tree (i :: p) = node_at tree p ≫= fun n => nth_error (node_children n) i.
Proof.
  unfold node_at. simpl. rewrite descend_app.
  destruct (descend tree (rev p)) as [n|]; simpl; [|done].
  by destruct (nth_error (node_children n) i).
Qed.

Lemma rowCount_not_dir (idx : Index) :
  isDir tree idx = false → rowCount tree idx = 0.
Proof.
  unfold isDir, rowCount. by destruct (node_at tree idx) as [[?|? ?]|].
Qed.

Lemma isDir_rowCount (idx : Index) :
  0 < rowCount tree idx → isDir tree idx = true.
Proof.
  intros H. destruct (isDir tree idx) eqn:E; [done|].
  apply rowCount_not_dir in E. lia.
Qed.

Lemma elem_of_children (c p : Index) :
  c ∈ children tree p ↔ ∃ i, c = i :: p ∧ i < rowCount tree p.
Proof.
  unfold children, range, index. rewrite list_elem_of_fmap. split.
  - intros (i & -> & Hi). exists i. split; [done|].
    apply list_elem_of_In, in_seq in Hi. lia.
  - intros (i & -> & Hi). exists i. split; [done|].
    apply list_elem_of_In, in_seq. lia.
Qed.

Lemma elem_of_file_children (c p : Index) :
  c ∈ file_children tree p ↔
  isDir tree c = false ∧ ∃ i, c = i :: p ∧ i < rowCount tree p.
Proof.
  unfold file_children. by rewrite list_elem_of_filter, elem_of_children.
Qed.

Lemma elem_of_dir_children (c p : Index) :
  c ∈ dir_children tree p ↔
  isDir tree c = true ∧ ∃ i, c = i :: p ∧ i < rowCount tree p.
Proof.
  unfold dir_children. by rewrite list_elem_of_filter, elem_of_children.
Qed.

Lemma file_children_isDir (p : Index) :
  file_children tree p ≠ [] → isDir tree p = true.
Proof.
  intros H. apply isDir_rowCount.
  destruct (file_children tree p) as [|c l] eqn:E; [done|].
  assert (Hc : c ∈ file_children tree p) by (rewrite E; left).
  apply elem_of_file_children in Hc as (_ & i & _ & Hi). lia.
Qed.

Lemma file_children_of_file (p : Index) :
  isDir tree p = false → file_children tree p = [].
Proof.
  intros H. destruct (file_children tree p) eqn:E; [done|].
  rewrite file_children_isDir in H; [done|]. by rewrite E.
Qed.

(** The counting loop of [update_parent] counts the file children and the
    checked ones among them. *)
Lemma count_children_spec (p : Index) (s : gset Index) :
  count_children tree p s =
  (length (filter (fun c => c ∈ s) (file_children tree p)),
   length (file_children tree p)).
Proof.
  unfold count_children, file_children, children.
  generalize (range (rowCount tree p)). intros rows.
  enough (G : ∀ a b,
    fold_left
      (fun (acc : nat * nat) (i : nat) =>
         let '(checked, total) := acc in
         let child := index i p in
         if negb (isDir tree child) then
           (if bool_decide (child ∈ s) then S checked else checked, S total)
         else acc) rows (a, b) =
    (a + length (filter (fun c => c ∈ s)
                   (filter (fun c => isDir tree c = false)
                      (map (fun i => index i p) rows))),
     b + length (filter (fun c => isDir tree c = false)
                   (map (fun i => index i p) rows)))) by apply (G 0 0).
  induction rows as [|i rows IH]; intros a b; simpl.
  - f_equal; lia.
  - destruct (isDir tree (index i p)) eqn:E; simpl.
    + rewrite IH. rewrite filter_cons_False by (rewrite E; done). done.
    + rewrite IH. rewrite (filter_cons_True (fun c => isDir tree c = false)) by done.
      case_bool_decide.
      * rewrite filter_cons_True by done. simpl. f_equal; lia.
      * rewrite filter_cons_False by done. simpl. f_equal; lia.
Qed.

Lemma aggregate_true (p : Index) (s : gset Index) :
  aggregate tree p s = true ↔ ∃ c, c ∈ file_children tree p ∧ c ∈ s.
Proof.
  unfold aggregate. rewrite bool_decide_eq_true, Exists_exists.
  split; intros (c & H1 & H2); exists c; split; try done; by apply list_elem_of_In.
Qed.

Lemma aggregate_ext (p : Index) (s1 s2 : gset Index) :
  (∀ c, c ∈ file_children tree p → (c ∈ s1 ↔ c ∈ s2)) →
  aggregate tree p s1 = aggregate tree p s2.
Proof.
  intros H. apply eq_true_iff_eq. rewrite !aggregate_true.
  split; intros (c & Hc & Hs); exists c; split; try done; by apply (H c Hc).
Qed.

(** One step of [update_parent]: the parent, when valid and with file
    children, receives its aggregate, and the climb goes on from it. *)
Lemma update_parent_cons (i : nat) (p : Index) (s : gset Index) :
  update_parent tree (i :: p) s =
  if isValid p && bool_decide (file_children tree p ≠ [])
  then update_parent tree p
         (if aggregate tree p s then {[p]} ∪ s else s ∖ {[p]})
  else s.
Proof.
  cbn [update_parent]. destruct (isValid p); cbn [andb]; [|done].
  rewrite count_children_spec.
  pose proof (aggregate_true p s) as Hagg.
  case_bool_decide as Hfc.
  2:{ destruct (file_children tree p); [done|]. discriminate Hfc. }
  destruct (file_children tree p) as [|c l] eqn:E; [done|].
  replace (0 <? length (c :: l))%nat with true by (symmetry; apply Nat.ltb_lt; simpl; lia).
  set (k := length (filter (fun c0 => c0 ∈ s) (c :: l))).
  assert (Hk : k ≠ 0 ↔ aggregate tree p s = true).
  { rewrite Hagg. unfold k. split.
    - intros Hne. destruct (filter (fun c0 => c0 ∈ s) (c :: l)) as [|x r] eqn:F; [done|].
      assert (Hx : x ∈ filter (fun c0 => c0 ∈ s) (c :: l)) by (rewrite F; left).
      apply list_elem_of_filter in Hx as [? ?]. by exists x.
    - intros (x & Hx & Hs) Hz.
      assert (Hf : x ∈ filter (fun c0 => c0 ∈ s) (c :: l))
        by (apply list_elem_of_filter; done).
      destruct (filter (fun c0 => c0 ∈ s) (c :: l)); [by apply elem_of_nil in Hf|done]. }
  destruct (aggregate tree p s).
  - assert (k ≠ 0) by (by apply Hk).
    destruct (k =? length (c :: l))%nat; [done|].
    by rewrite (proj2 (Nat.eqb_neq k 0)).
  - assert (k = 0) as -> by (destruct (decide (k = 0)); [done|]; by apply Hk in n).
    simpl. done.
Qed.

End TreeFacts.

(* --------------------------------------------------------------------- *)
(* 8. update_parent and setData in closed form                            *)
(* --------------------------------------------------------------------- *)

Section ModelFacts.

Variable tree : Node.

Lemma elem_of_toggle (x idx : Index) (v : CheckState) (s : gset Index) :
  x ∈ toggle idx v s ↔ (x = idx ∧ is_Checked v = true) ∨ (x ≠ idx ∧ x ∈ s).
Proof.
  unfold toggle. destruct (is_Checked v).
  - destruct (decide (x = idx)); set_solver.
  - set_solver.
Qed.

Lemma touched_shorter (idx x : Index) :
  x ∈ touched tree idx → length x < length idx.
Proof.
  revert x. induction idx as [|i p IH]; intros x; simpl.
  - by intros ?%elem_of_nil.
  - destruct (isValid p && bool_decide (file_children tree p ≠ [])).
    + intros [->|H]%elem_of_cons; [lia|]. apply IH in H. lia.
    + by intros ?%elem_of_nil.
Qed.

Lemma touched_not_self (idx : Index) : idx ∉ touched tree idx.
Proof. intros H%touched_shorter. lia. Qed.

Lemma touched_has_files (idx x : Index) :
  x ∈ touched tree idx → isValid x = true ∧ file_children tree x ≠ [].
Proof.
  revert x. induction idx as [|i p IH]; intros x; simpl.
  - by intros ?%elem_of_nil.
  - destruct (isValid p) eqn:Hv; simpl; [|by intros ?%elem_of_nil].
    case_bool_decide as Hf; [|by intros ?%elem_of_nil].
    intros [->|H]%elem_of_cons; [done|]. by apply IH.
Qed.

Lemma touched_isDir (idx x : Index) :
  x ∈ touched tree idx → isDir tree x = true.
Proof. intros [_ H]%touched_has_files. by apply file_children_isDir. Qed.


(** The parent of a file child is the first index its climb recomputes. *)
Lemma touched_of_file_child (c p : Index) :
  c ∈ file_children tree p → isValid p = true → p ∈ touched tree c.
Proof.
  intros Hc Hv. pose proof Hc as (_ & i & -> & _)%elem_of_file_children.
  simpl. rewrite Hv. simpl.
  rewrite bool_decide_eq_true_2; [left|]. intros E. rewrite E in Hc.
  by apply elem_of_nil in Hc.
Qed.

(** [update_parent] in closed form: the indexes it climbs through receive
    the aggregate of their file children, and nothing else changes. *)
Lemma update_parent_spec (idx : Index) (s : gset Index) (x : Index) :
  x ∈ update_parent tree idx s ↔
  if bool_decide (x ∈ touched tree idx) then aggregate tree x s = true else x ∈ s.
Proof.
  revert s x. induction idx as [|i p IH]; intros s x.
  - cbn [update_parent touched].
    rewrite bool_decide_eq_false_2; [done|]. by intros ?%elem_of_nil.
  - rewrite update_parent_cons. cbn [touched].
    destruct (isValid p && bool_decide (file_children tree p ≠ [])) eqn:Hc.
    2:{ rewrite bool_decide_eq_false_2; [done|]. by intros ?%elem_of_nil. }
    apply andb_true_iff in Hc as [Hv Hf]. apply bool_decide_eq_true in Hf.
    rewrite IH. set (s' := if aggregate tree p s then {[p]} ∪ s else s ∖ {[p]}).
    assert (Hs' : ∀ y, y ≠ p → (y ∈ s' ↔ y ∈ s)).
    { intros y Hy. unfold s'. destruct (aggregate tree p s); set_solver. }
    destruct (decide (x ∈ touched tree p)) as [Hx|Hx].
    + rewrite bool_decide_eq_true_2 by done.
      rewrite bool_decide_eq_true_2 by (by right).
      rewrite (aggregate_ext tree x s' s); [done|].
      intros c Hcx. apply Hs'. intros ->.
      apply elem_of_file_children in Hcx as [Hd _].
      rewrite (file_children_isDir tree p Hf) in Hd. done.
    + rewrite bool_decide_eq_false_2 by done.
      destruct (decide (x = p)) as [->|Hne].
      * rewrite bool_decide_eq_true_2 by left.
        unfold s'. destruct (aggregate tree p s); set_solver.
      * rewrite bool_decide_eq_false_2.
        -- by apply Hs'.
        -- intros [?|?]%elem_of_cons; done.
Qed.

Lemma update_parent_untouched (idx : Index) (s : gset Index) (x : Index) :
  x ∉ touched tree idx → (x ∈ update_parent tree idx s ↔ x ∈ s).
Proof. intros H. rewrite update_parent_spec. by rewrite bool_decide_eq_false_2. Qed.

Lemma update_parent_touched (idx : Index) (s : gset Index) (x : Index) :
  x ∈ touched tree idx →
  (x ∈ update_parent tree idx s ↔ aggregate tree x s = true).
Proof. intros H. rewrite update_parent_spec. by rewrite bool_decide_eq_true_2. Qed.

(** [update_parent] never changes an index that is not a directory. *)
Lemma update_parent_file (idx : Index) (s : gset Index) (x : Index) :
  isDir tree x = false → (x ∈ update_parent tree idx s ↔ x ∈ s).
Proof.
  intros H. apply update_parent_untouched. intros Hx%touched_isDir. congruence.
Qed.

Lemma update_parent_aggregate (idx p : Index) (s : gset Index) :
  aggregate tree p (update_parent tree idx s) = aggregate tree p s.
Proof.
  apply aggregate_ext. intros c Hc. apply update_parent_file.
  by apply elem_of_file_children in Hc as [? _].
Qed.

(** The loop of [update_children] runs over the file children. *)
Lemma update_children_with_file_children
    (f : Index → CheckState → gset Index → option (gset Index))
    (idx : Index) (v : CheckState) (s : gset Index) :
  update_children_with tree f idx v s =
  fold_left (fun acc c => s' ← acc; f c v s') (file_children tree idx) (Some s).
Proof.
  unfold update_children_with, file_children, children.
  generalize (Some s). induction (range (rowCount tree idx)) as [|i rows IH];
    intros acc; simpl; [done|].
  destruct (isDir tree (index i idx)) eqn:E.
  - rewrite filter_cons_False by (rewrite E; done).
    rewrite <- IH. f_equal. by destruct acc.
  - rewrite filter_cons_True by done. simpl. by rewrite <- IH.
Qed.

Lemma setData_no_files (n : nat) (idx : Index) (v : CheckState) (s : gset Index) :
  file_children tree idx = [] →
  setData tree (S n) idx v s = Some (setData_leaf tree idx v s).
Proof.
  intros H. cbn [setData]. rewrite update_children_with_file_children, H. done.
Qed.

(** Two levels of recursion are all [setData] needs: a file child has no
    rows of its own. *)
Lemma setData_enough (n : nat) (idx : Index) (v : CheckState) (s : gset Index) :
  setData tree (S (S n)) idx v s = Some (setData_result tree idx v s).
Proof.
  change (setData tree (S (S n)) idx v s) with
    (s2 ← update_children_with tree (setData tree (S n)) idx v (toggle idx v s);
     Some (update_parent tree idx s2)).
  rewrite update_children_with_file_children. unfold setData_result.
  assert (G : ∀ (f : Index → CheckState → gset Index → option (gset Index)) l s0,
    (∀ c s1, c ∈ l → f c v s1 = Some (setData_leaf tree c v s1)) →
    fold_left (fun acc c => s' ← acc; f c v s') l (Some s0) =
    Some (fold_left (fun s' c => setData_leaf tree c v s') l s0)).
  { intros f. induction l as [|c l IH]; intros s0 Hl; simpl; [done|].
    rewrite Hl by left. apply IH. intros c' s1 Hc'. apply Hl. by right. }
  rewrite G; [done|]. intros c s1 Hc. apply setData_no_files.
  apply file_children_of_file. by apply elem_of_file_children in Hc as [? _].
Qed.

End ModelFacts.

(* --------------------------------------------------------------------- *)
(* 9. What setData changes                                                *)
(* --------------------------------------------------------------------- *)

Section SetDataFacts.

Variable tree : Node.

Lemma elem_of_setData_leaf (c : Index) (v : CheckState) (s : gset Index) (x : Index) :
  x ∈ setData_leaf tree c v s ↔
  if bool_decide (x ∈ touched tree c)
  then aggregate tree x (toggle c v s) = true
  else x ∈ toggle c v s.
Proof. apply update_parent_spec. Qed.

(** The loop over the file children leaves alone every index that is
    neither one of them nor climbed through. *)
Lemma fold_leaf_untouched (l : list Index) (v : CheckState) (s : gset Index) (x : Index) :
  x ∉ l → (∀ c, c ∈ l → x ∉ touched tree c) →
  (x ∈ fold_left (fun s' c => setData_leaf tree c v s') l s ↔ x ∈ s).
Proof.
  revert s. induction l as [|c l IH]; intros s Hx Ht; simpl; [done|].
  rewrite IH.
  - unfold setData_leaf. rewrite update_parent_untouched by (apply Ht; left).
    rewrite elem_of_toggle. split; [|intros ?; right; split; [|done]].
    + intros [[-> _]|[_ ?]]; [|done]. exfalso. apply Hx. left.
    + intros ->. apply Hx. left.
  - intros ?. apply Hx. by right.
  - intros c' ?. apply Ht. by right.
Qed.

Lemma fold_leaf_file (l : list Index) (v : CheckState) (s : gset Index) (x : Index) :
  isDir tree x = false → x ∉ l →
  (x ∈ fold_left (fun s' c => setData_leaf tree c v s') l s ↔ x ∈ s).
Proof.
  intros Hd Hx. apply fold_leaf_untouched; [done|].
  intros c _ Ht%touched_isDir. congruence.
Qed.

(** After the loop every file child carries the value. *)
Lemma fold_leaf_set (l : list Index) (v : CheckState) (s : gset Index) (x : Index) :
  (∀ c, c ∈ l → isDir tree c = false) → x ∈ l →
  (x ∈ fold_left (fun s' c => setData_leaf tree c v s') l s ↔ is_Checked v = true).
Proof.
  revert s. induction l as [|c l IH]; intros s Hl Hx; simpl.
  - by apply elem_of_nil in Hx.
  - destruct (decide (x ∈ l)) as [Hin|Hnin].
    + apply IH; [|done]. intros c' ?. apply Hl. by right.
    + apply elem_of_cons in Hx as [->|?]; [|done].
      rewrite fold_leaf_file by (try done; apply Hl; left).
      unfold setData_leaf. rewrite update_parent_file by (apply Hl; left).
      rewrite elem_of_toggle. naive_solver.
Qed.

Lemma setData_result_file_child (D : Index) (v : CheckState) (s : gset Index) (c : Index) :
  c ∈ file_children tree D →
  (c ∈ setData_result tree D v s ↔ is_Checked v = true).
Proof.
  intros Hc. unfold setData_result.
  rewrite update_parent_file by (by apply elem_of_file_children in Hc as [? _]).
  apply fold_leaf_set; [|done].
  intros c' Hc'. by apply elem_of_file_children in Hc' as [? _].
Qed.

Lemma setData_result_other_file (D : Index) (v : CheckState) (s : gset Index) (x : Index) :
  isDir tree x = false → x ≠ D → x ∉ file_children tree D →
  (x ∈ setData_result tree D v s ↔ x ∈ s).
Proof.
  intros Hd Hne Hx. unfold setData_result.
  rewrite update_parent_file, fold_leaf_file, elem_of_toggle by done.
  naive_solver.
Qed.

(** The index [setData] is called on ends up carrying the value. *)
Lemma setData_result_self (D : Index) (v : CheckState) (s : gset Index) :
  D ∈ setData_result tree D v s ↔ is_Checked v = true.
Proof.
  unfold setData_result.
  rewrite update_parent_untouched by apply touched_not_self.
  destruct (file_children tree D) as [|c0 l0] eqn:E.
  { simpl. rewrite elem_of_toggle. naive_solver. }
  assert (Hfiles : ∀ c, c ∈ file_children tree D → isDir tree c = false).
  { intros c Hc. by apply elem_of_file_children in Hc as [? _]. }
  destruct (isValid D) eqn:Hv.
  - (* the last file child recomputes D from children that all carry v *)
    rewrite <- E.
    destruct (exists_last (l := file_children tree D)) as (l & c & El);
      [by rewrite E|].
    assert (Hc : c ∈ file_children tree D) by (rewrite El; set_solver).
    set (s2 := fold_left (fun s' c1 => setData_leaf tree c1 v s')
                 (file_children tree D) (toggle D v s)).
    assert (Hagg : D ∈ s2 ↔ aggregate tree D s2 = true).
    { unfold s2. rewrite El, fold_left_app. simpl. unfold setData_leaf at 1 3.
      rewrite update_parent_aggregate.
      apply update_parent_touched. by apply touched_of_file_child. }
    rewrite Hagg, aggregate_true. split.
    + intros (c' & Hc' & Hs'). by apply (fold_leaf_set _ v (toggle D v s) c' Hfiles Hc').
    + intros Hchk. exists c. split; [done|].
      by apply (fold_leaf_set _ v (toggle D v s) c Hfiles Hc).
  - (* the invalid index is never climbed through *)
    destruct D; [|done].
    rewrite <- E, fold_leaf_untouched.
    + rewrite elem_of_toggle. naive_solver.
    + intros (_ & i & Hi & _)%elem_of_file_children. done.
    + intros c _ [Hval _]%touched_has_files. done.
Qed.

End SetDataFacts.

(* --------------------------------------------------------------------- *)
(* 10. The aggregate as an invariant                                      *)
(* --------------------------------------------------------------------- *)

Section Consistency.

Variable tree : Node.

Lemma consistent_empty : consistent tree ∅.
Proof. intros p _ _. set_solver. Qed.

Lemma consistent_aggregate (s : gset Index) (p : Index) :
  consistent tree s → isValid p = true → file_children tree p ≠ [] →
  (p ∈ s ↔ aggregate tree p s = true).
Proof. intros H Hv Hf. rewrite aggregate_true. by apply H. Qed.

(** File children of two different parents differ. *)
Lemma file_children_parent (c p q : Index) :
  c ∈ file_children tree p → c ∈ file_children tree q → p = q.
Proof.
  intros (_ & i & -> & _)%elem_of_file_children (_ & j & E & _)%elem_of_file_children.
  congruence.
Qed.

(** From a consistent state, a climb changes nothing. *)
Lemma update_parent_consistent_id (idx : Index) (s : gset Index) :
  consistent tree s → update_parent tree idx s = s.
Proof.
  intros H. apply set_eq. intros x. rewrite update_parent_spec.
  case_bool_decide as Hx; [|done].
  apply touched_has_files in Hx as [Hv Hf]. symmetry. by apply consistent_aggregate.
Qed.

(** A climb keeps the aggregate wherever it held, and installs it on the
    indexes it goes through. *)
Lemma update_parent_consistent_at (idx : Index) (s : gset Index) (p : Index) :
  (p ∈ touched tree idx ∨ (p ∈ s ↔ aggregate tree p s = true)) →
  (p ∈ update_parent tree idx s ↔ aggregate tree p (update_parent tree idx s) = true).
Proof.
  intros H. rewrite update_parent_aggregate, update_parent_spec.
  case_bool_decide as Hp; [done|]. by destruct H.
Qed.

Lemma setData_leaf_consistent (c : Index) (v : CheckState) (s : gset Index) :
  file_children tree c = [] →
  (∀ p, c ∉ file_children tree p → isValid p = true → file_children tree p ≠ [] →
        (p ∈ s ↔ aggregate tree p s = true)) →
  consistent tree (setData_leaf tree c v s).
Proof.
  intros Hc H p Hv Hf. rewrite <- aggregate_true. unfold setData_leaf.
  apply update_parent_consistent_at.
  destruct (decide (p ∈ touched tree c)) as [|Hnt]; [by left|right].
  assert (Hcp : c ∉ file_children tree p).
  { intros Hin. apply Hnt. by apply touched_of_file_child. }
  assert (Hne : p ≠ c) by (intros ->; by apply Hf).
  rewrite (aggregate_ext tree p (toggle c v s) s).
  - rewrite elem_of_toggle. specialize (H p Hcp Hv Hf). naive_solver.
  - intros c' Hc'. rewrite elem_of_toggle.
    assert (c' ≠ c) by (intros ->; done). naive_solver.
Qed.

Lemma fold_leaf_consistent (l : list Index) (v : CheckState) (s : gset Index) :
  (∀ c, c ∈ l → file_children tree c = []) → consistent tree s →
  consistent tree (fold_left (fun s' c => setData_leaf tree c v s') l s).
Proof.
  revert s. induction l as [|c l IH]; intros s Hl Hs; simpl; [done|].
  apply IH; [intros c' ?; apply Hl; by right|].
  apply setData_leaf_consistent; [apply Hl; left|].
  intros p _ Hv Hf. by apply consistent_aggregate.
Qed.

(** Every call of [setData] keeps the aggregate invariant. *)
Lemma setData_result_consistent (idx : Index) (v : CheckState) (s : gset Index) :
  consistent tree s → consistent tree (setData_result tree idx v s).
Proof.
  intros Hs. unfold setData_result.
  assert (Hfiles : ∀ c, c ∈ file_children tree idx → file_children tree c = []).
  { intros c [? _]%elem_of_file_children. by apply file_children_of_file. }
  destruct (file_children tree idx) as [|c l] eqn:E.
  - simpl. apply (setData_leaf_consistent idx v s E).
    intros p _ Hv Hf. by apply consistent_aggregate.
  - intros p Hv Hf. rewrite <- aggregate_true.
    apply update_parent_consistent_at. right. rewrite aggregate_true.
    revert p Hv Hf. change (consistent tree
      (fold_left (fun s' c1 => setData_leaf tree c1 v s') (c :: l) (toggle idx v s))).
    simpl. apply fold_leaf_consistent; [intros c' ?; apply Hfiles; by right|].
    apply setData_leaf_consistent; [apply Hfiles; left|].
    intros p Hcp Hv Hf.
    assert (Hc : c ∈ file_children tree idx) by (rewrite E; left).
    assert (Hne : p ≠ idx) by (intros ->; done).
    assert (Hdir : isDir tree idx = true)
      by (apply file_children_isDir; rewrite E; done).
    rewrite (aggregate_ext tree p (toggle idx v s) s).
    + rewrite elem_of_toggle. pose proof (consistent_aggregate s p Hs Hv Hf).
      naive_solver.
    + intros c' [Hd _]%elem_of_file_children. rewrite elem_of_toggle.
      assert (c' ≠ idx) by (intros ->; congruence). naive_solver.
Qed.

(** Whatever the fuel, a call of [setData] that returns has computed
    [setData_result]. *)
Lemma setData_Some (fuel : nat) (idx : Index) (v : CheckState) (s s' : gset Index) :
  setData tree fuel idx v s = Some s' → s' = setData_result tree idx v s.
Proof.
  destruct fuel as [|[|n]].
  - discriminate.
  - cbn [setData]. rewrite update_children_with_file_children. unfold setData_result.
    destruct (file_children tree idx) as [|c l]; simpl; [congruence|].
    assert (G : fold_left (fun acc c0 => s'0 ← acc; (None : option (gset Index))) l None
                = None) by (by induction l).
    rewrite G. discriminate.
  - rewrite setData_enough. congruence.
Qed.

Lemma reachable_consistent (s : gset Index) : reachable tree s → consistent tree s.
Proof.
  induction 1 as [|fuel idx v s s' _ IH Hs'].
  - apply consistent_empty.
  - apply setData_Some in Hs' as ->. by apply setData_result_consistent.
Qed.

(** From a consistent state, [setData] on a directory changes at most the
    directory and its file children. *)
Lemma setData_result_frame (D : Index) (v : CheckState) (s : gset Index) (x : Index) :
  consistent tree s → isDir tree D = true →
  x ≠ D → x ∉ file_children tree D →
  (x ∈ setData_result tree D v s ↔ x ∈ s).
Proof.
  intros Hs Hdir.
  set (J := fun st : gset Index =>
              ∀ y, y ≠ D → y ∉ file_children tree D → (y ∈ st ↔ y ∈ s)).
  assert (Hagg : ∀ st y, J st → y ≠ D → aggregate tree y st = aggregate tree y s).
  { intros st y HJ Hy. apply aggregate_ext. intros c Hc. apply HJ.
    - intros ->. apply elem_of_file_children in Hc as [? _]. congruence.
    - intros Hc'. apply Hy. by apply (file_children_parent c). }
  assert (Hclimb : ∀ idx st, J st → J (update_parent tree idx st)).
  { intros idx st HJ y Hy Hyc. rewrite update_parent_spec.
    case_bool_decide as Ht; [|by apply HJ].
    rewrite (Hagg st y HJ Hy). apply touched_has_files in Ht as [? ?].
    symmetry. by apply consistent_aggregate. }
  assert (Htog : ∀ c st, c = D ∨ c ∈ file_children tree D → J st → J (toggle c v st)).
  { intros c st Hc HJ y Hy Hyc. rewrite elem_of_toggle.
    assert (y ≠ c) by (intros ->; destruct Hc; done).
    specialize (HJ y Hy Hyc). naive_solver. }
  assert (Hfold : ∀ l st, (∀ c, c ∈ l → c ∈ file_children tree D) → J st →
            J (fold_left (fun s' c => setData_leaf tree c v s') l st)).
  { induction l as [|c l IH]; intros st Hl HJ; simpl; [done|].
    apply IH; [intros c' ?; apply Hl; by right|].
    apply Hclimb, Htog; [right; apply Hl; left|done]. }
  intros Hx Hxc. unfold setData_result.
  apply (Hclimb D); [|done|done].
  apply Hfold; [done|]. apply Htog; [by left|]. by intros y _ _.
Qed.


Lemma file_children_longer (p c : Index) :
  c ∈ file_children tree p → length c = S (length p).
Proof. by intros (_ & i & -> & _)%elem_of_file_children. Qed.

End Consistency.

(* --------------------------------------------------------------------- *)
(* 11. Checking leaves one by one                                         *)
(* --------------------------------------------------------------------- *)

Section CheckingLeaves.

Variable tree : Node.

Lemma setData_each_enough (n : nat) (l : list Index) (v : CheckState) (s : gset Index) :
  setData_each tree (S (S n)) l v s =
  Some (fold_left (fun s' x => setData_result tree x v s') l s).
Proof.
  unfold setData_each. revert s. induction l as [|x l IH]; intros s; [done|].
  cbn [fold_left]. change (Some s ≫= _) with (setData tree (S (S n)) x v s).
  rewrite setData_enough. apply IH.
Qed.

Lemma checked_with_child_toggle (D y : Index) (st : gset Index) :
  checked_with_child tree D st → checked_with_child tree D (toggle y Checked st).
Proof.
  intros [HD (c & Hc & Hs)]. split.
  - rewrite elem_of_toggle. destruct (decide (D = y)); naive_solver.
  - exists c. split; [done|]. rewrite elem_of_toggle.
    destruct (decide (c = y)); naive_solver.
Qed.

Lemma checked_with_child_climb (D idx : Index) (st : gset Index) :
  checked_with_child tree D st → checked_with_child tree D (update_parent tree idx st).
Proof.
  intros [HD (c & Hc & Hs)]. split.
  - rewrite update_parent_spec. case_bool_decide; [|done].
    apply aggregate_true. by exists c.
  - exists c. split; [done|]. rewrite update_parent_file; [done|].
    by apply elem_of_file_children in Hc as [? _].
Qed.

Lemma checked_with_child_setData (D x : Index) (st : gset Index) :
  checked_with_child tree D st → checked_with_child tree D (setData_result tree x Checked st).
Proof.
  intros H. unfold setData_result. apply checked_with_child_climb.
  generalize (file_children tree x). intros l.
  assert (H0 : checked_with_child tree D (toggle x Checked st))
    by (by apply checked_with_child_toggle).
  revert H0. generalize (toggle x Checked st).
  induction l as [|c l IH]; intros s0 H0; simpl; [done|].
  apply IH. unfold setData_leaf.
  by apply checked_with_child_climb, checked_with_child_toggle.
Qed.

(** Checking a file child of a valid index checks that index. *)
Lemma setData_file_child_checks_parent (D c : Index) (st : gset Index) :
  isValid D = true → c ∈ file_children tree D →
  checked_with_child tree D (setData_result tree c Checked st).
Proof.
  intros Hv Hc. unfold setData_result.
  rewrite file_children_of_file by (by apply elem_of_file_children in Hc as [? _]).
  simpl. assert (Hin : c ∈ toggle c Checked st) by (rewrite elem_of_toggle; naive_solver).
  split.
  - apply update_parent_touched; [by apply touched_of_file_child|].
    apply aggregate_true. by exists c.
  - exists c. split; [done|]. rewrite update_parent_file; [done|].
    by apply elem_of_file_children in Hc as [? _].
Qed.

Lemma fold_setData_keeps (D : Index) (l : list Index) (st : gset Index) :
  checked_with_child tree D st →
  checked_with_child tree D (fold_left (fun s' x => setData_result tree x Checked s') l st).
Proof.
  revert st. induction l as [|x l IH]; intros st H; simpl; [done|].
  by apply IH, checked_with_child_setData.
Qed.

Lemma fold_setData_checks (D c : Index) (l : list Index) (st : gset Index) :
  isValid D = true → c ∈ file_children tree D → c ∈ l →
  checked_with_child tree D (fold_left (fun s' x => setData_result tree x Checked s') l st).
Proof.
  intros Hv Hc. revert st. induction l as [|x l IH]; intros st Hin; simpl.
  - by apply elem_of_nil in Hin.
  - apply elem_of_cons in Hin as [<-|Hin]; [|by apply IH].
    by apply fold_setData_keeps, setData_file_child_checks_parent.
Qed.

End CheckingLeaves.

(* --------------------------------------------------------------------- *)
(* 12. Bulk operations on files                                           *)
(* --------------------------------------------------------------------- *)

Section BulkFacts.

Variable tree : Node.

Lemma setData_result_no_files (f : Index) (v : CheckState) (s : gset Index) :
  file_children tree f = [] → setData_result tree f v s = setData_leaf tree f v s.
Proof. intros H. unfold setData_result. by rewrite H. Qed.

Lemma fold_setData_unaffected (F : list Index) (v : CheckState) (s : gset Index) (x : Index) :
  (∀ f, f ∈ F → file_children tree f = []) → ¬ affected tree F x →
  (x ∈ fold_left (fun s' f => setData_result tree f v s') F s ↔ x ∈ s).
Proof.
  revert s. induction F as [|f F IH]; intros s HF Hx; simpl; [done|].
  rewrite IH.
  - rewrite setData_result_no_files by (apply HF; left).
    rewrite elem_of_setData_leaf, bool_decide_eq_false_2, elem_of_toggle.
    + split; [|intros ?; right; split; [|done]].
      * intros [[-> _]|[_ ?]]; [|done]. exfalso. apply Hx. left. left.
      * intros ->. apply Hx. left. left.
    + intros Ht. apply Hx. right. exists f. split; [left|done].
  - intros f' ?. apply HF. by right.
  - intros [Hin|(f' & Hf' & Ht)]; apply Hx; [left; by right|].
    right. exists f'. split; [by right|done].
Qed.



End BulkFacts.

(* --------------------------------------------------------------------- *)
(* 13. setChecked on a directory                                          *)
(* --------------------------------------------------------------------- *)

(** C1, as amended: [setData(D, v, CheckStateRole)] gives the value [v] to
    every immediate file child of [D] and leaves every other entry that is
    not a directory as it was, the files inside subdirectories of [D]
    among them ([update_children] skips directories). *)
Theorem setData_reaches_file_children
    (tree : Node) (D : Index) (v : CheckState) (s : gset Index) (n : nat) :
  ∃ s' : gset Index,
    setData tree (S (S n)) D v s = Some s' ∧
    (∀ c, c ∈ file_children tree D → (c ∈ s' ↔ is_Checked v = true)) ∧
    (∀ x, isDir tree x = false → x ≠ D → x ∉ file_children tree D →
          (x ∈ s' ↔ x ∈ s)).
Proof.
  exists (setData_result tree D v s). split; [apply setData_enough|]. split.
  - intros c Hc. by apply setData_result_file_child.
  - intros x Hd Hne Hx. by apply setData_result_other_file.
Qed.

(** C1 as stated fails: checking [/proj] leaves [/proj/sub/c.py], a leaf
    below it, unchecked. *)
Lemma setData_skips_nested_leaf :
  below Sample.proj Sample.c_py ∧
  is_file Sample.proj_tree Sample.c_py = true ∧
  ∃ s' : gset Index,
    setData Sample.proj_tree 2 Sample.proj Checked ∅ = Some s' ∧
    Sample.c_py ∉ s'.
Proof.
  split; [exists [0; 3]; done|]. split; [done|].
  eexists. split; [reflexivity|]. vm_compute. intros H. inversion H.
Qed.

(** C2, as amended: [setData(D, v, CheckStateRole)] does put [D] itself
    into the set or take it out (lines 37-40); when the call returns, [D]
    is in the set exactly when [v] is [Checked].  With immediate file
    children that is also their aggregate, since all of them carry [v];
    without any, it is the direct toggle alone. *)
Theorem setData_directory_membership
    (tree : Node) (D : Index) (v : CheckState) (s : gset Index) (n : nat) :
  ∃ s' : gset Index,
    setData tree (S (S n)) D v s = Some s' ∧
    (D ∈ s' ↔ is_Checked v = true) ∧
    (file_children tree D ≠ [] →
       (D ∈ s' ↔ ∃ c, c ∈ file_children tree D ∧ c ∈ s')).
Proof.
  exists (setData_result tree D v s). split; [apply setData_enough|]. split.
  - apply setData_result_self.
  - intros Hf. rewrite setData_result_self. split.
    + intros Hv. destruct (file_children tree D) as [|c l] eqn:E; [done|].
      exists c. rewrite <- E. assert (Hc : c ∈ file_children tree D) by (rewrite E; left).
      split; [done|]. by apply setData_result_file_child.
    + intros (c & Hc & Hs). by apply (setData_result_file_child tree D v s c).
Qed.

(** C2 as stated fails: checking [/top], whose only leaf [/top/sub/c.py]
    stays unchecked, leaves [/top] in the set. *)
Lemma setData_adds_directory_itself :
  ∃ s' : gset Index,
    setData Sample.nested_tree 2 Sample.top Checked ∅ = Some s' ∧
    Sample.top ∈ s' ∧
    ∀ x, is_file Sample.nested_tree x = true → x ∉ s'.
Proof.
  exists {[Sample.top]}. split; [by vm_compute|]. split; [set_solver|].
  intros x Hx ->%elem_of_singleton. discriminate Hx.
Qed.

(** C3, as amended: for a directory [D] with at least one immediate file
    child, checking leaves one by one, in any order and whatever else is
    checked along the way, as long as the immediate file children of [D]
    are among them, leaves [D] checked, and so does [setData(D, Checked)]. *)
Theorem leaves_or_directory_check
    (tree : Node) (D : Index) (Ls : list Index) (s : gset Index) (n : nat) :
  isValid D = true → file_children tree D ≠ [] → file_children tree D ⊆ Ls →
  ∃ s1 s2 : gset Index,
    setData_each tree (S (S n)) Ls Checked s = Some s1 ∧
    setData tree (S (S n)) D Checked s = Some s2 ∧
    D ∈ s1 ∧ D ∈ s2.
Proof.
  intros Hv Hf Hsub.
  exists (fold_left (fun s' x => setData_result tree x Checked s') Ls s),
         (setData_result tree D Checked s).
  split; [apply setData_each_enough|]. split; [apply setData_enough|]. split.
  - destruct (file_children tree D) as [|c l] eqn:E; [done|].
    assert (Hc : c ∈ file_children tree D) by (rewrite E; left).
    apply (fold_setData_checks tree D c Ls s Hv Hc). apply Hsub. rewrite <- E. done.
  - by apply setData_result_self.
Qed.

Lemma leaves_or_directory_check_witness :
  ∃ s1 s2 : gset Index,
    setData_each Sample.proj_tree 2
      [Sample.c_py; Sample.logo_png; Sample.b_py; Sample.a_py] Checked ∅ = Some s1 ∧
    setData Sample.proj_tree 2 Sample.proj Checked ∅ = Some s2 ∧
    Sample.proj ∈ s1 ∧ Sample.proj ∈ s2.
Proof.
  apply (leaves_or_directory_check Sample.proj_tree Sample.proj
           [Sample.c_py; Sample.logo_png; Sample.b_py; Sample.a_py] ∅ 0).
  - reflexivity.
  - vm_compute. discriminate.
  - vm_compute. intros x Hx. repeat (apply elem_of_cons in Hx as [->|Hx]);
      try (by apply elem_of_nil in Hx); set_solver.
Defined.

(** C3 as stated fails: [/top] contains the single leaf [/top/sub/c.py];
    checking that leaf leaves [/top] unchecked, checking [/top] itself
    leaves it checked. *)
Lemma leaves_and_directory_differ :
  get_all_file_indexes Sample.nested_tree default_extensions 2 Sample.top
    = Some [Sample.top_c_py] ∧
  ∃ s1 s2 : gset Index,
    setData_each Sample.nested_tree 2 [Sample.top_c_py] Checked ∅ = Some s1 ∧
    setData Sample.nested_tree 2 Sample.top Checked ∅ = Some s2 ∧
    ¬ (Sample.top ∈ s1 ↔ Sample.top ∈ s2).
Proof.
  split; [by vm_compute|].
  exists {[Sample.top_c_py; Sample.top_sub]}, {[Sample.top]}.
  split; [by vm_compute|]. split; [by vm_compute|].
  intros [_ H]. assert (Hin : Sample.top ∈ ({[Sample.top]} : gset Index)) by set_solver.
  apply H in Hin. vm_compute in Hin. set_solver.
Qed.

(* --------------------------------------------------------------------- *)
(* 14. get_all_file_indexes                                               *)
(* --------------------------------------------------------------------- *)

Section WalkFacts.

Variable tree : Node.
Variable exts : list string.

Lemma pop_nil : pop [] = None.
Proof. done. Qed.

Lemma pop_snoc (st : list Index) (d : Index) : pop (st ++ [d]) = Some (d, st).
Proof. unfold pop. rewrite rev_app_distr. simpl. by rewrite rev_involutive. Qed.

(** One pass of the [for] loop pushes the directories among the children
    and appends the valid files among them. *)
Lemma scan_rows_spec (p : Index) (st files : list Index) :
  scan_rows tree exts p (st, files) =
  (st ++ dir_children tree p,
   files ++ filter (fun c => index_valid tree exts c = true) (file_children tree p)).
Proof.
  unfold scan_rows, dir_children, file_children, children.
  revert st files. induction (range (rowCount tree p)) as [|i rows IH];
    intros st files; simpl.
  - by rewrite !app_nil_r.
  - destruct (isDir tree (index i p)) eqn:E.
    + rewrite IH. rewrite (filter_cons_True (fun c => isDir tree c = true)) by done.
      rewrite (filter_cons_False (fun c => isDir tree c = false)) by (rewrite E; done).
      by rewrite <- app_assoc.
    + rewrite (filter_cons_False (fun c => isDir tree c = true)) by (rewrite E; done).
      rewrite (filter_cons_True (fun c => isDir tree c = false)) by done.
      destruct (index_valid tree exts (index i p)) eqn:V.
      * rewrite IH. rewrite filter_cons_True by done. by rewrite <- app_assoc.
      * rewrite IH. rewrite filter_cons_False by (rewrite V; done). done.
Qed.

Lemma list_sum_filter {A : Type} (P : A → Prop) `{∀ x, Decision (P x)}
    (g : A → nat) (l : list A) :
  list_sum (map g (filter P l)) =
  list_sum (map (fun x => if decide (P x) then g x else 0) l).
Proof.
  induction l as [|x l IH]; simpl; [done|].
  destruct (decide (P x)).
  - rewrite filter_cons_True by done. simpl. by rewrite IH.
  - rewrite filter_cons_False by done. by rewrite IH.
Qed.

Lemma map_rows_nth {A B : Type} (F : option A → B) (cs : list A) :
  map (fun i => F (nth_error cs i)) (seq 0 (length cs)) = map (fun c => F (Some c)) cs.
Proof.
  revert F. induction cs as [|c cs IH]; intros F; simpl; [done|].
  f_equal. rewrite <- seq_shift, map_map. apply (IH (fun o => F o)).
Qed.

(** A stack entry costs one iteration for itself and what the directories
    among its children cost. *)
Lemma walk_cost_children (d : Index) :
  walk_cost_at tree d = S (list_sum (map (walk_cost_at tree) (dir_children tree d))).
Proof.
  unfold dir_children, children, range, rowCount.
  rewrite list_sum_filter, map_map.
  unfold walk_cost_at at 1.
  destruct (node_at tree d) as [n|] eqn:En; [|done].
  transitivity (S (list_sum (map
    (fun i => match nth_error (node_children n) i with
              | Some c => if node_isDir c then walk_cost c else 0
              | None => 0
              end) (seq 0 (length (node_children n)))))).
  - rewrite (map_rows_nth (fun o => match o with
                                    | Some c => if node_isDir c then walk_cost c else 0
                                    | None => 0
                                    end)).
    by destruct n.
  - f_equal. f_equal. apply map_ext. intros i.
    unfold isDir, walk_cost_at, index. rewrite node_at_cons, En. simpl.
    destruct (nth_error (node_children n) i) as [c|]; simpl; [|done].
    by destruct (node_isDir c).
Qed.

Lemma walk_cost_at_pos (d : Index) : 0 < walk_cost_at tree d.
Proof. rewrite walk_cost_children. lia. Qed.

Lemma node_at_suffix (pre q : list nat) :
  is_Some (node_at tree (pre ++ q)) → is_Some (node_at tree q).
Proof.
  induction pre as [|i pre IH]; simpl; [done|].
  rewrite node_at_cons. intros [n Hn]. apply IH.
  destruct (node_at tree (pre ++ q)); [done|discriminate].
Qed.

Lemma node_at_child_lt (i : nat) (p : Index) :
  is_Some (node_at tree (i :: p)) → i < rowCount tree p.
Proof.
  rewrite node_at_cons. unfold rowCount.
  destruct (node_at tree p) as [m|]; simpl; [|by intros [? ?]].
  intros [n Hn]. apply nth_error_Some. congruence.
Qed.

Lemma node_at_child_some (i : nat) (p : Index) :
  i < rowCount tree p → is_Some (node_at tree (i :: p)).
Proof.
  rewrite node_at_cons. unfold rowCount.
  destruct (node_at tree p) as [m|]; simpl; [|lia].
  intros Hi. destruct (nth_error (node_children m) i) eqn:E; [done|].
  apply nth_error_None in E. lia.
Qed.

Lemma is_file_spec (x : Index) :
  is_file tree x = true ↔ is_Some (node_at tree x) ∧ isDir tree x = false.
Proof.
  unfold is_file, isDir. destruct (node_at tree x) as [[?|? ?]|]; simpl; split;
    try done; intros [[? ?] ?]; done.
Qed.

(** The valid files strictly below [d] are its valid file children and
    the valid files strictly below the directories among its children. *)
Lemma below_split (d x : Index) :
  below d x ∧ is_file tree x = true ↔
  (x ∈ file_children tree d ∨
   ∃ c, c ∈ dir_children tree d ∧ below c x ∧ is_file tree x = true).
Proof.
  split.
  - intros [(pre & Hne & ->) Hf].
    destruct (exists_last Hne) as (pre' & i & ->).
    rewrite <- app_assoc in Hf |- *. simpl in Hf |- *.
    pose proof Hf as [Hs Hd]%is_file_spec.
    pose proof (node_at_child_lt i d (node_at_suffix pre' (i :: d) Hs)) as Hi.
    destruct pre' as [|j pre'].
    + left. apply elem_of_file_children. split; [done|]. by exists i.
    + right. exists (i :: d). split; [|split; [|done]].
      * apply elem_of_dir_children. split; [|by exists i].
        apply isDir_rowCount.
        destruct (exists_last (l := j :: pre')) as (q & k & Eq); [done|].
        rewrite Eq, <- app_assoc in Hs. simpl in Hs.
        apply node_at_suffix, node_at_child_lt in Hs. lia.
      * by exists (j :: pre').
  - intros [Hc|(c & Hc & (pre & Hne & ->) & Hf)].
    + apply elem_of_file_children in Hc as (Hd & i & -> & Hi). split.
      * by exists [i].
      * apply is_file_spec. split; [by apply node_at_child_some|done].
    + apply elem_of_dir_children in Hc as (_ & i & -> & _). split; [|done].
      exists (pre ++ [i]). split; [by destruct pre|]. by rewrite <- app_assoc.
Qed.

(** The [while] loop, given fuel for every entry of the stack, returns
    the files it started with and the valid files below the stack. *)
Lemma walk_spec (fuel : nat) (stack files : list Index) :
  list_sum (map (walk_cost_at tree) stack) ≤ fuel →
  ∃ out : list Index,
    walk tree exts fuel stack files = Some out ∧
    ∀ x, x ∈ out ↔
         x ∈ files ∨
         ∃ d, d ∈ stack ∧ below d x ∧ is_file tree x = true
              ∧ index_valid tree exts x = true.
Proof.
  revert stack files. induction fuel as [|fuel IH]; intros stack files Hfuel.
  - destruct stack as [|d st].
    + exists files. split; [done|]. intros x. split; [by left|].
      intros [?|(d & ?%elem_of_nil & _)]; done.
    + simpl in Hfuel. pose proof (walk_cost_at_pos d). lia.
  - destruct (decide (stack = [])) as [->|Hne].
    + exists files. split; [done|]. intros x. split; [by left|].
      intros [?|(d & ?%elem_of_nil & _)]; done.
    + destruct (exists_last Hne) as (st & d & ->).
      cbn [walk]. rewrite pop_snoc, scan_rows_spec.
      rewrite map_app, list_sum_app in Hfuel. simpl in Hfuel.
      rewrite walk_cost_children in Hfuel.
      destruct (IH (st ++ dir_children tree d)
                  (files ++ filter (fun c => index_valid tree exts c = true)
                              (file_children tree d))) as (out & Hout & Hmem).
      { rewrite map_app, list_sum_app. lia. }
      exists out. split; [done|]. intros x. rewrite Hmem. clear Hmem Hout IH.
      rewrite elem_of_app, list_elem_of_filter. split.
      * intros [[?|[Hv Hc]]|(c & Hc & Hb & Hf & Hv)].
        -- by left.
        -- right. exists d. split; [set_solver|].
           assert (Hbf : below d x ∧ is_file tree x = true)
             by (apply below_split; by left).
           naive_solver.
        -- apply elem_of_app in Hc as [Hc|Hc].
           ++ right. exists c. split; [set_solver|done].
           ++ right. exists d. split; [set_solver|].
              assert (Hbf : below d x ∧ is_file tree x = true)
                by (apply below_split; right; by exists c).
              naive_solver.
      * intros [?|(c & Hc & Hb & Hf & Hv)]; [by left; left|].
        apply elem_of_app in Hc as [Hc|Hc].
        -- right. exists c. split; [set_solver|done].
        -- apply list_elem_of_singleton in Hc as ->.
           destruct (proj1 (below_split d x) (conj Hb Hf)) as [Hc|(c & Hc & Hb' & _)].
           ++ left. by right.
           ++ right. exists c. split; [set_solver|done].
Qed.

Lemma below_trans (a b c : Index) : below a b → below b c → below a c.
Proof.
  intros (p1 & H1 & ->) (p2 & H2 & ->). exists (p2 ++ p1).
  split; [by destruct p2|]. by rewrite <- app_assoc.
Qed.

Lemma below_length (d x : Index) : below d x → length d < length x.
Proof.
  intros (pre & Hne & ->). rewrite length_app. destruct pre; [done|]. simpl. lia.
Qed.

Lemma below_irrefl (d : Index) : ¬ below d d.
Proof. intros H%below_length. lia. Qed.

Lemma below_child (i : nat) (d : Index) : below d (i :: d).
Proof. by exists [i]. Qed.

Lemma below_cons_inv (d' d : Index) (i : nat) :
  below d' (i :: d) → d' = d ∨ below d' d.
Proof.
  intros (pre & Hne & E). destruct pre as [|j pre]; [done|].
  simpl in E. injection E as -> ->.
  destruct pre as [|k pre]; [by left|right]. by exists (k :: pre).
Qed.

Lemma NoDup_children (d : Index) : NoDup (children tree d).
Proof.
  unfold children, range.
  apply (NoDup_fmap_2_strong (fun i => index i d)).
  - intros i j _ _ E. unfold index in E. congruence.
  - apply NoDup_seq.
Qed.

(** One iteration of the [while] loop keeps [walk_invariant]. *)
Lemma walk_invariant_step (d : Index) (st files : list Index) :
  walk_invariant (st ++ [d]) files →
  walk_invariant (st ++ dir_children tree d)
    (files ++ filter (fun c => index_valid tree exts c = true) (file_children tree d)).
Proof.
  intros (Hst & Hfiles & Hsep & Hfs).
  apply NoDup_app in Hst as (Hst & Hd & _).
  assert (Hdst : d ∉ st).
  { intros Hin. apply (Hd d Hin). by apply list_elem_of_singleton. }
  assert (Hin_d : d ∈ st ++ [d]) by (apply elem_of_app; right; by apply list_elem_of_singleton).
  assert (Hdc : ∀ c, c ∈ dir_children tree d → ∃ i, c = i :: d).
  { intros c (_ & i & -> & _)%elem_of_dir_children. by exists i. }
  assert (Hfc : ∀ c, c ∈ file_children tree d → ∃ i, c = i :: d).
  { intros c (_ & i & -> & _)%elem_of_file_children. by exists i. }
  assert (Hchild_st : ∀ i d', d' ∈ st → ¬ below d' (i :: d)).
  { intros i d' Hd' [->|Hb]%below_cons_inv; [done|].
    apply (Hsep d' d); [apply elem_of_app; by left|done|done]. }
  split; [|split; [|split]].
  - apply NoDup_app. split; [done|]. split.
    + intros c Hc Hc'. destruct (Hdc c Hc') as (i & ->).
      apply (Hsep d (i :: d)); [done|apply elem_of_app; by left|apply below_child].
    + apply NoDup_filter, NoDup_children.
  - apply NoDup_app. split; [done|]. split.
    + intros x Hx [_ Hx']%list_elem_of_filter. destruct (Hfc x Hx') as (i & ->).
      apply (Hfs (i :: d) d); [done|done|apply below_child].
    + apply NoDup_filter, NoDup_filter, NoDup_children.
  - intros d1 d2 [H1|H1]%elem_of_app [H2|H2]%elem_of_app Hb.
    + apply (Hsep d1 d2); try done; apply elem_of_app; by left.
    + destruct (Hdc d2 H2) as (i & ->). by apply (Hchild_st i d1).
    + destruct (Hdc d1 H1) as (i & ->).
      apply (Hsep d d2); [done|apply elem_of_app; by left|].
      by apply (below_trans d (i :: d) d2); [apply below_child|].
    + destruct (Hdc d1 H1) as (i & ->). destruct (Hdc d2 H2) as (j & ->).
      apply below_length in Hb. simpl in Hb. lia.
  - intros x d' [Hx|[_ Hx]%list_elem_of_filter]%elem_of_app [Hd'|Hd']%elem_of_app Hb.
    + apply (Hfs x d'); [done|apply elem_of_app; by left|done].
    + destruct (Hdc d' Hd') as (i & ->).
      apply (Hfs x d); [done|done|].
      by apply (below_trans d (i :: d) x); [apply below_child|].
    + destruct (Hfc x Hx) as (i & ->). by apply (Hchild_st i d').
    + destruct (Hfc x Hx) as (i & ->). destruct (Hdc d' Hd') as (j & ->).
      apply below_length in Hb. simpl in Hb. lia.
Qed.

(** No index comes out of the [while] loop twice. *)
Lemma walk_NoDup (fuel : nat) (stack files out : list Index) :
  walk tree exts fuel stack files = Some out → walk_invariant stack files → NoDup out.
Proof.
  revert stack files. induction fuel as [|fuel IH]; intros stack files Hw Hinv.
  - destruct (decide (stack = [])) as [->|Hne].
    + simpl in Hw. injection Hw as <-. by destruct Hinv as (_ & ? & _).
    + destruct (exists_last Hne) as (st & d & ->).
      cbn [walk] in Hw. by rewrite pop_snoc in Hw.
  - destruct (decide (stack = [])) as [->|Hne].
    + simpl in Hw. injection Hw as <-. by destruct Hinv as (_ & ? & _).
    + destruct (exists_last Hne) as (st & d & ->).
      cbn [walk] in Hw. rewrite pop_snoc, scan_rows_spec in Hw.
      apply (IH _ _ Hw). by apply walk_invariant_step.
Qed.

(** What [get_all_file_indexes] returns: the files strictly below the
    root whose lower-cased suffix is in the allow-list, each once. *)
Lemma get_all_file_indexes_spec (fuel : nat) (root : Index) :
  walk_cost_at tree root ≤ fuel →
  ∃ files : list Index,
    get_all_file_indexes tree exts fuel root = Some files ∧
    NoDup files ∧
    ∀ x, x ∈ files ↔
         below root x ∧ is_file tree x = true
         ∧ lower (suffix (fileName tree x)) ∈ exts.
Proof.
  intros Hfuel. destruct (walk_spec fuel [root] []) as (out & Hout & Hmem).
  { simpl. lia. }
  exists out. split; [done|]. split.
  { apply (walk_NoDup fuel [root] [] out Hout).
    split; [apply NoDup_singleton|]. split; [apply NoDup_nil_2|]. split.
    - intros d1 d2 ->%list_elem_of_singleton ->%list_elem_of_singleton.
      apply below_irrefl.
    - intros x d ?%elem_of_nil. done. }
  intros x. rewrite Hmem. split.
  - intros [?%elem_of_nil|(d & ->%list_elem_of_singleton & Hb & Hf & Hv)]; [done|].
    split; [done|]. split; [done|].
    apply is_file_spec in Hf as [_ Hd]. unfold index_valid in Hv.
    rewrite Hd in Hv. simpl in Hv. by apply bool_decide_eq_true in Hv.
  - intros (Hb & Hf & He). right. exists root. split; [set_solver|].
    split; [done|]. split; [done|]. unfold index_valid.
    apply orb_true_iff. right. by apply bool_decide_eq_true.
Qed.

End WalkFacts.

Lemma default_extensions_lower (e : string) :
  e ∈ default_extensions → lower e = e.
Proof.
  revert e. apply Forall_forall.
  apply (bool_decide_unpack (Forall (fun e => lower e = e) default_extensions)).
  by vm_compute.
Qed.

Lemma matches_default_extensions (ext : string) :
  matches_allow_list default_extensions ext ↔ lower ext ∈ default_extensions.
Proof.
  split.
  - intros (e & He & Heq). rewrite Heq. by rewrite (default_extensions_lower e He).
  - intros H. exists (lower ext). split; [done|].
    by rewrite (default_extensions_lower (lower ext) H).
Qed.

(** C4: given fuel for the directories below the root,
    [get_all_file_indexes] returns exactly the files strictly below the
    root whose suffix matches an entry of the configured allow-list up to
    letter case, each of them once; none of the indexes returned is a
    directory. *)
Theorem get_all_file_indexes_exact (tree : Node) (root : Index) (fuel : nat) :
  walk_cost_at tree root ≤ fuel →
  ∃ files : list Index,
    get_all_file_indexes tree default_extensions fuel root = Some files ∧
    NoDup files ∧
    (∀ x, x ∈ files ↔
          below root x ∧ is_file tree x = true
          ∧ matches_allow_list default_extensions (suffix (fileName tree x))) ∧
    (∀ x, x ∈ files → isDir tree x = false).
Proof.
  intros Hfuel.
  destruct (get_all_file_indexes_spec tree default_extensions fuel root Hfuel)
    as (files & Hfiles & Hnd & Hmem).
  exists files. split; [done|]. split; [done|]. split.
  - intros x. rewrite Hmem, matches_default_extensions. done.
  - intros x (_ & Hf & _)%Hmem. by apply is_file_spec in Hf as [_ ?].
Qed.

Lemma get_all_file_indexes_exact_witness :
  ∃ files : list Index,
    get_all_file_indexes Sample.proj_tree default_extensions 3 Sample.proj = Some files ∧
    NoDup files ∧
    (∀ x, x ∈ files ↔
          below Sample.proj x ∧ is_file Sample.proj_tree x = true
          ∧ matches_allow_list default_extensions
              (suffix (fileName Sample.proj_tree x))) ∧
    (∀ x, x ∈ files → isDir Sample.proj_tree x = false).
Proof.
  apply (get_all_file_indexes_exact Sample.proj_tree Sample.proj 3).
  vm_compute. lia.
Defined.

(* --------------------------------------------------------------------- *)
(* 15. The handlers of the main window                                    *)
(* --------------------------------------------------------------------- *)

(** C5: choosing a base directory empties the selection set, whatever it
    held. *)
Theorem select_base_directory_clears (host : Host) (directory : string) (w : MainWindow) :
  directory ≠ EmptyString →
  checked_indexes (model (select_base_directory host directory w)) = ∅
  ∧ base_directory (select_base_directory host directory w) = Some directory.
Proof.
  intros Hne. unfold select_base_directory.
  destruct directory as [|c r]; [done|]. cbn [is_empty].
  unfold save_last_directory. by destruct (writable host (config_file host)).
Qed.

Lemma select_base_directory_clears_witness :
  checked_indexes (model (select_base_directory Sample.host "/proj"
     (with_model (with_checked {[Sample.a_py; Sample.proj]} (model Sample.opened))
        Sample.opened))) = ∅
  ∧ base_directory (select_base_directory Sample.host "/proj"
     (with_model (with_checked {[Sample.a_py; Sample.proj]} (model Sample.opened))
        Sample.opened)) = Some "/proj"%string.
Proof.
  apply (select_base_directory_clears Sample.host "/proj"
    (with_model (with_checked {[Sample.a_py; Sample.proj]} (model Sample.opened))
       Sample.opened)).
  discriminate.
Defined.

(** C10: without a base directory, [select_all_files] and
    [deselect_all_files] return at once and leave the window, its
    selection set included, as it was. *)
Theorem bulk_without_base_directory (host : Host) (fuel : nat) (w : MainWindow) :
  base_directory w = None →
  select_all_files host fuel w = Some w ∧ deselect_all_files host fuel w = Some w.
Proof.
  intros H. unfold select_all_files, deselect_all_files. by rewrite H.
Qed.

Lemma bulk_without_base_directory_witness :
  select_all_files Sample.host 0 Sample.fresh = Some Sample.fresh
  ∧ deselect_all_files Sample.host 0 Sample.fresh = Some Sample.fresh.
Proof.
  apply (bulk_without_base_directory Sample.host 0 Sample.fresh). reflexivity.
Defined.



(* --------------------------------------------------------------------- *)
(* 16. Reads that fail                                                    *)
(* --------------------------------------------------------------------- *)

Lemma string_app_assoc (a b c : string) : (a +:+ b) +:+ c = a +:+ b +:+ c.
Proof.
  induction a as [|x a IH]; [reflexivity|].
  change (String x ((a +:+ b) +:+ c) = String x (a +:+ b +:+ c)). by rewrite IH.
Qed.

Lemma string_app_nil_r (a : string) : a +:+ EmptyString = a.
Proof.
  induction a as [|x a IH]; [reflexivity|].
  change (String x (a +:+ EmptyString) = String x a). by rewrite IH.
Qed.

Lemma occurs_in_refl (a : string) : occurs_in a a.
Proof. exists EmptyString, EmptyString. simpl. by rewrite string_app_nil_r. Qed.

Lemma occurs_in_trans (a b c : string) :
  occurs_in a b → occurs_in b c → occurs_in a c.
Proof.
  intros (p1 & q1 & ->) (p2 & q2 & ->).
  exists (p2 +:+ p1), (q1 +:+ q2). by rewrite !string_app_assoc.
Qed.

Lemma occurs_in_app_l (a b c : string) : occurs_in a b → occurs_in a (b +:+ c).
Proof.
  intros (p & q & ->). exists p, (q +:+ c). by rewrite !string_app_assoc.
Qed.

Lemma occurs_in_app_r (a b c : string) : occurs_in a c → occurs_in a (b +:+ c).
Proof.
  intros (p & q & ->). exists (b +:+ p), q. by rewrite !string_app_assoc.
Qed.

(** Every part occurs in the joined text. *)
Lemma occurs_in_join (sep : string) (parts : list string) (a : string) :
  a ∈ parts → occurs_in a (join sep parts).
Proof.
  unfold join. induction parts as [|x parts IH]; [by intros ?%elem_of_nil|].
  intros [->|Hin]%elem_of_cons.
  - destruct parts as [|y parts]; simpl; [apply occurs_in_refl|].
    apply occurs_in_app_l, occurs_in_refl.
  - destruct parts as [|y parts]; [by apply elem_of_nil in Hin|].
    change (String.concat sep (x :: y :: parts))
      with (x +:+ sep +:+ String.concat sep (y :: parts)).
    by apply occurs_in_app_r, occurs_in_app_r, IH.
Qed.

Lemma dict_get_set_eq (k v : string) (d : dict) : dict_get k (dict_set k v d) = Some v.
Proof.
  induction d as [|[k' v'] d IH]; simpl.
  - by rewrite String.eqb_refl.
  - destruct (String.eqb k' k) eqn:E; simpl; rewrite E; [done|apply IH].
Qed.

Lemma dict_get_set_ne (k k' v : string) (d : dict) :
  k' ≠ k → dict_get k' (dict_set k v d) = dict_get k' d.
Proof.
  intros Hne. induction d as [|[k0 v0] d IH]; simpl.
  - destruct (String.eqb_spec k k'); [congruence|done].
  - destruct (String.eqb_spec k0 k) as [->|Hk]; simpl.
    + destruct (String.eqb_spec k k'); [congruence|done].
    + destruct (String.eqb_spec k0 k'); [done|apply IH].
Qed.

Section ReadFacts.

Variable host : Host.

(** The loop over the checked indexes, on any list of them: it appends
    one section for each file that is valid and can be read. *)
Lemma read_loop_spec (base : string) (m : Model) (l : list Index)
    (acc : list string) (k : nat) :
  fold_left
    (fun (acc : list string * nat) (idx : Index) =>
       let '(files_content, selected_file_count) := acc in
       if isDir (tree host) idx then acc
       else if negb (index_valid (tree host) (extensions m) idx) then acc
       else
         let file_path := filePath host idx in
         match read_text host file_path with
         | Some content =>
             let relative_path := os_relpath host file_path base in
             let header := ("<!-- " +:+ relative_path +:+ " -->")%string in
             let footer := ("<!-- end of " +:+ relative_path +:+ " -->")%string in
             (files_content ++ [header +:+ newline +:+ content +:+ newline +:+ footer],
              S selected_file_count)
         | None => acc
         end)
    l (acc, k) =
  (acc ++ omap (fun idx =>
            if isDir (tree host) idx then None
            else if negb (index_valid (tree host) (extensions m) idx) then None
            else content ← read_text host (filePath host idx);
                 Some (file_section (os_relpath host (filePath host idx) base) content)) l,
   k + length (omap (fun idx =>
            if isDir (tree host) idx then None
            else if negb (index_valid (tree host) (extensions m) idx) then None
            else content ← read_text host (filePath host idx);
                 Some (file_section (os_relpath host (filePath host idx) base) content)) l)).
Proof.
  revert acc k. induction l as [|idx l IH]; intros acc k; simpl.
  - rewrite app_nil_r. f_equal. lia.
  - destruct (isDir (tree host) idx); [apply IH|].
    destruct (index_valid (tree host) (extensions m) idx); simpl; [|apply IH].
    destruct (read_text host (filePath host idx)) as [content|]; simpl; [|apply IH].
    rewrite IH, <- app_assoc. simpl. f_equal. by rewrite Nat.add_succ_r.
Qed.

Lemma read_selected_spec (base : string) (m : Model) :
  (∀ b, b ∈ fst (read_selected host base m) ↔
        ∃ idx content,
          idx ∈ checked_indexes m ∧ isDir (tree host) idx = false
          ∧ index_valid (tree host) (extensions m) idx = true
          ∧ read_text host (filePath host idx) = Some content
          ∧ b = file_section (os_relpath host (filePath host idx) base) content)
  ∧ snd (read_selected host base m) = length (fst (read_selected host base m)).
Proof.
  unfold read_selected. rewrite read_loop_spec. cbn [fst snd]. split; [|done].
  intros b. rewrite app_nil_l, list_elem_of_omap. split.
  - intros (idx & Hin%elem_of_elements & Hb).
    destruct (isDir (tree host) idx) eqn:Hd; [done|].
    destruct (index_valid (tree host) (extensions m) idx) eqn:Hv; [|done].
    destruct (read_text host (filePath host idx)) as [content|] eqn:Hr; [|done].
    simpl in Hb. exists idx, content. naive_solver.
  - intros (idx & content & Hin & Hd & Hv & Hr & ->).
    exists idx. split; [by apply elem_of_elements|]. by rewrite Hd, Hv, Hr.
Qed.

(** What was read occurs in the assembled text. *)
Lemma section_in_final_prompt (w : MainWindow) (base b : string) :
  base_directory w = Some base → base ≠ EmptyString →
  b ∈ fst (read_selected host base (model w)) →
  occurs_in b (final_prompt (update_final_prompt host w)).
Proof.
  intros Hb Hne Hin. cbn [update_final_prompt with_final_prompt final_prompt].
  unfold final_prompt_content.
  apply (occurs_in_trans _ (join (newline +:+ newline)
                              (fst (read_selected host base (model w))))).
  { by apply occurs_in_join. }
  apply occurs_in_join. unfold content_list. rewrite Hb.
  destruct base as [|c r]; [done|]. cbn [is_empty].
  destruct (fst (read_selected host (String c r) (model w))) as [|x l] eqn:E;
    [by apply elem_of_nil in Hin|].
  rewrite !elem_of_app. right. right. left. right. left.
Qed.

(** The dict [load_dir] builds, from any starting dict. *)
Lemma load_loop_sound (dir : string) (l : list string) (d0 : dict) (name content : string) :
  dict_get name
    (fold_left
       (fun (d : dict) (filename : string) =>
          if endswith filename ".txt" then
            match read_text host (path_join dir filename) with
            | Some content => dict_set (splitext_root filename) content d
            | None => d
            end
          else d) l d0) = Some content →
  dict_get name d0 = Some content ∨
  ∃ filename, filename ∈ l ∧ endswith filename ".txt" = true
              ∧ splitext_root filename = name
              ∧ read_text host (path_join dir filename) = Some content.
Proof.
  revert d0. induction l as [|f l IH]; intros d0; simpl; [by left|].
  intros H. apply IH in H as [H|(f' & Hin & Hrest)].
  2:{ right. exists f'. split; [by right|done]. }
  destruct (endswith f ".txt") eqn:He; [|by left].
  destruct (read_text host (path_join dir f)) as [c|] eqn:Hr; [|by left].
  destruct (decide (name = splitext_root f)) as [->|Hne].
  - rewrite dict_get_set_eq in H. right. exists f. split; [left|]. naive_solver.
  - rewrite dict_get_set_ne in H by done. by left.
Qed.

Lemma load_loop_complete (dir : string) (l : list string) (d0 : dict) (name : string) :
  is_Some (dict_get name d0) ∨
  (∃ filename content, filename ∈ l ∧ endswith filename ".txt" = true
              ∧ splitext_root filename = name
              ∧ read_text host (path_join dir filename) = Some content) →
  is_Some (dict_get name
    (fold_left
       (fun (d : dict) (filename : string) =>
          if endswith filename ".txt" then
            match read_text host (path_join dir filename) with
            | Some content => dict_set (splitext_root filename) content d
            | None => d
            end
          else d) l d0)).
Proof.
  revert d0. induction l as [|f l IH]; intros d0; simpl.
  - intros [?|(f & c & ?%elem_of_nil & _)]; done.
  - intros H. apply IH.
    destruct H as [H|(f' & c & [->|Hin]%elem_of_cons & He & Hn & Hr)].
    + left. destruct (endswith f ".txt"); [|done].
      destruct (read_text host (path_join dir f)) as [c|]; [|done].
      destruct (decide (name = splitext_root f)) as [->|Hne].
      * by rewrite dict_get_set_eq.
      * by rewrite dict_get_set_ne.
    + left. rewrite He, Hr, <- Hn. by rewrite dict_get_set_eq.
    + right. by exists f', c.
Qed.

End ReadFacts.

(** C8: a read that fails only drops its own item.  In the document the
    sections are exactly those of the checked, valid files whose read
    succeeded, each of them occurs in the final text, and the count is
    theirs; in [load_presets] and [load_tasktypes] every entry stems from
    a [.txt] file that was read, and every [.txt] file that was read has
    its entry, with its own content unless another [.txt] file shares its
    name without the extension.  A failing read is the value [None] of
    [read_text], so both loops return for every host. *)
Theorem failed_reads_are_skipped (host : Host) (w : MainWindow) (base dir : string)
    (filenames : list string) :
  base_directory w = Some base → base ≠ EmptyString →
  (∀ b, b ∈ fst (read_selected host base (model w)) ↔
        ∃ idx content,
          idx ∈ checked_indexes (model w) ∧ isDir (tree host) idx = false
          ∧ index_valid (tree host) (extensions (model w)) idx = true
          ∧ read_text host (filePath host idx) = Some content
          ∧ b = file_section (os_relpath host (filePath host idx) base) content)
  ∧ snd (read_selected host base (model w))
    = length (fst (read_selected host base (model w)))
  ∧ (∀ b, b ∈ fst (read_selected host base (model w)) →
          occurs_in b (final_prompt (update_final_prompt host w)))
  ∧ (∀ name content, dict_get name (load_dir host dir filenames) = Some content →
        ∃ filename, filename ∈ filenames ∧ endswith filename ".txt" = true
                    ∧ splitext_root filename = name
                    ∧ read_text host (path_join dir filename) = Some content)
  ∧ (∀ filename content, filename ∈ filenames → endswith filename ".txt" = true →
        read_text host (path_join dir filename) = Some content →
        ∃ content',
          dict_get (splitext_root filename) (load_dir host dir filenames) = Some content'
          ∧ ((∀ f, f ∈ filenames → endswith f ".txt" = true →
                   splitext_root f = splitext_root filename → f = filename) →
             content' = content)).
Proof.
  intros Hb Hne.
  destruct (read_selected_spec host base (model w)) as [Hmem Hcount].
  split; [done|]. split; [done|]. split.
  { intros b Hin. by apply (section_in_final_prompt host w base). }
  split.
  - intros name content H. unfold load_dir in H.
    apply load_loop_sound in H as [H|H]; [done|done].
  - intros filename content Hin He Hr.
    destruct (load_loop_complete host dir filenames [] (splitext_root filename))
      as [content' Hc'].
    { right. by exists filename, content. }
    exists content'. split; [done|]. intros Huniq.
    apply load_loop_sound in Hc' as [Hc'|(f & Hf & Hfe & Hfn & Hfr)]; [done|].
    rewrite (Huniq f Hf Hfe Hfn) in Hfr. congruence.
Qed.

Lemma failed_reads_are_skipped_witness :
  snd (read_selected Sample.host "/proj" (model Sample.selected))
  = length (fst (read_selected Sample.host "/proj" (model Sample.selected)))
  ∧ ∀ b, b ∈ fst (read_selected Sample.host "/proj" (model Sample.selected)) →
         occurs_in b (final_prompt (update_final_prompt Sample.host Sample.selected)).
Proof.
  destruct (failed_reads_are_skipped Sample.host Sample.selected "/proj"
              "/app/presets" (Sample.sample_listdir "/app/presets"))
    as (_ & Hcount & Hocc & _).
  - reflexivity.
  - discriminate.
  - split; [exact Hcount|exact Hocc].
Defined.

(* --------------------------------------------------------------------- *)
(* 17. The token estimate                                                 *)
(* --------------------------------------------------------------------- *)

(** [text.split()] yields one word for each place where a word starts. *)
Lemma split_from_length (text cur : string) :
  length (split_from text cur) =
  (if is_empty cur then 0 else 1) + count_word_starts (is_empty cur) text.
Proof.
  revert cur. induction text as [|c r IH]; intros cur; cbn [split_from count_word_starts].
  - destruct (is_empty cur); done.
  - destruct (isspace c) eqn:Hc.
    + rewrite andb_false_r. destruct (is_empty cur); cbn [length]; rewrite IH; done.
    + rewrite IH. replace (is_empty (cur +:+ String c EmptyString)) with false
        by (by destruct cur).
      rewrite andb_true_r. destruct (is_empty cur); lia.
Qed.

Lemma split_length (text : string) : length (split text) = number_of_words text.
Proof. unfold split, number_of_words. by rewrite split_from_length. Qed.

Section FloatFacts.

Local Open Scope Z_scope.

(** The constant is the correctly rounded quotient of 6 by 5, and
    [5 * 5404319552844595 = 6 * 2 ^ 52 - 1]. *)
Lemma float_1_2_nearest :
  SFdiv 53 1024 (float_of_int 6) (float_of_int 5) = float_1_2.
Proof. by vm_compute. Qed.

Lemma digits2_pos_size (p : positive) : digits2_pos p = Pos.size p.
Proof. induction p; simpl; congruence. Qed.

Lemma digits2_pos_bounds (p : positive) :
  2 ^ (Zpos (digits2_pos p) - 1) <= Zpos p < 2 ^ Zpos (digits2_pos p).
Proof.
  rewrite digits2_pos_size. split.
  - pose proof (Pos.size_le p) as H.
    assert (H' : 2 ^ Zpos (Pos.size p) <= 2 * Zpos p).
    { rewrite <- Pos2Z.inj_pow. change (2 * Zpos p) with (Zpos p~0). exact H. }
    replace (Zpos (Pos.size p)) with (Z.succ (Zpos (Pos.size p) - 1)) in H' by lia.
    rewrite Z.pow_succ_r in H' by lia. lia.
  - pose proof (Pos.size_gt p) as H. rewrite <- Pos2Z.inj_pow. exact H.
Qed.

Lemma digits2_pos_unique (p : positive) (d : Z) :
  2 ^ (d - 1) <= Zpos p < 2 ^ d -> Zpos (digits2_pos p) = d.
Proof.
  intros [Hl Hu]. pose proof (digits2_pos_bounds p) as [Hl' Hu'].
  assert (0 < d).
  { destruct (Z.ltb_spec 0 d) as [|Hd]; [done|].
    destruct (Z.eq_dec d 0) as [->|]; [simpl in Hu; lia|].
    rewrite Z.pow_neg_r in Hu by lia. lia. }
  assert (Zpos (digits2_pos p) - 1 < d).
  { apply (Z.pow_lt_mono_r_iff 2); lia. }
  assert (d - 1 < Zpos (digits2_pos p)).
  { apply (Z.pow_lt_mono_r_iff 2); lia. }
  lia.
Qed.

Lemma iter_xO_spec (p n : positive) : Zpos (Pos.iter xO p n) = Zpos p * 2 ^ Zpos n.
Proof.
  induction n as [|n IH] using Pos.peano_ind.
  - simpl. lia.
  - rewrite Pos.iter_succ, Pos2Z.inj_succ, Z.pow_succ_r by lia.
    change (Zpos (Pos.iter xO p n)~0) with (2 * Zpos (Pos.iter xO p n)). lia.
Qed.

Lemma shr_1_spec (m : Z) (r s : bool) :
  0 <= m ->
  shr_1 {| shr_m := m; shr_r := r; shr_s := s |} =
  {| shr_m := m / 2; shr_r := Z.odd m; shr_s := r || s |}.
Proof.
  intros Hm. rewrite <- Z.div2_div.
  destruct m as [|p|p]; [done| |lia]. by destruct p.
Qed.

Lemma iter_pos_nat {A : Type} (f : A -> A) (p : positive) (x : A) :
  SpecFloat.iter_pos f p x = Nat.iter (Pos.to_nat p) f x.
Proof.
  revert x. induction p as [p IH|p IH|]; intros x; cbn [SpecFloat.iter_pos].
  - rewrite !IH, Pos2Nat.inj_xI.
    rewrite <- Nat.iter_add, <- Nat.iter_succ_r. f_equal. lia.
  - rewrite !IH, Pos2Nat.inj_xO. rewrite <- Nat.iter_add. f_equal. lia.
  - done.
Qed.

(** Shifting right by [n + 1] places keeps the quotient, the last bit
    shifted out and whether any bit before it was set. *)
Lemma shr_iter_spec (M : Z) (n : nat) :
  0 <= M ->
  Nat.iter (S n) shr_1 {| shr_m := M; shr_r := false; shr_s := false |} =
  {| shr_m := M / 2 ^ (Z.of_nat n + 1);
     shr_r := Z.odd (M / 2 ^ Z.of_nat n);
     shr_s := negb (M mod 2 ^ Z.of_nat n =? 0) |}.
Proof.
  intros HM. induction n as [|n IH].
  - change (Nat.iter 1 shr_1 ?x) with (shr_1 x).
    rewrite shr_1_spec by done. change (2 ^ Z.of_nat 0) with 1.
    change (2 ^ (Z.of_nat 0 + 1)) with 2. by rewrite Z.div_1_r, Z.mod_1_r.
  - change (Nat.iter (S (S n)) shr_1 ?x) with (shr_1 (Nat.iter (S n) shr_1 x)).
    rewrite IH. clear IH.
    assert (Hp : 0 < 2 ^ Z.of_nat n) by (apply Z.pow_pos_nonneg; lia).
    rewrite shr_1_spec by (apply Z.div_pos; [done|apply Z.pow_pos_nonneg; lia]).
    replace (Z.of_nat (S n)) with (Z.of_nat n + 1) by lia.
    f_equal.
    + rewrite Z.div_div by (try apply Z.pow_pos_nonneg; lia).
      f_equal. rewrite (Z.pow_add_r 2 (Z.of_nat n + 1) 1) by lia. lia.
    + rewrite (Z.pow_add_r 2 (Z.of_nat n) 1) by lia. change (2 ^ 1) with 2.
      rewrite Z.rem_mul_r by lia.
      pose proof (Z.mod_pos_bound M (2 ^ Z.of_nat n) Hp).
      rewrite Zmod_odd.
      destruct (Z.odd (M / 2 ^ Z.of_nat n)); simpl.
      * symmetry. apply negb_true_iff, Z.eqb_neq. lia.
      * f_equal. rewrite Z.mul_0_r, Z.add_0_r. done.
Qed.

Lemma fexp_normal (x : Z) : -1074 <= x - 53 -> fexp 53 1024 x = x - 53.
Proof. intros H. unfold fexp, emin. lia. Qed.

(** The first shift of [binary_round_aux] on a mantissa of more than 53
    digits. *)
Lemma shr_fexp_long (PM : positive) (e : Z) :
  53 < Zpos (digits2_pos PM) -> -1074 <= Zpos (digits2_pos PM) + e - 53 ->
  shr_fexp 53 1024 (Zpos PM) e loc_Exact =
  ({| shr_m := Zpos PM / 2 ^ (Zpos (digits2_pos PM) - 53);
      shr_r := Z.odd (Zpos PM / 2 ^ (Zpos (digits2_pos PM) - 54));
      shr_s := negb (Zpos PM mod 2 ^ (Zpos (digits2_pos PM) - 54) =? 0) |},
   e + (Zpos (digits2_pos PM) - 53)).
Proof.
  intros HD He. unfold shr_fexp. cbn [Zdigits2 shr_record_of_loc].
  rewrite fexp_normal by done.
  replace (Zpos (digits2_pos PM) + e - 53 - e) with (Zpos (digits2_pos PM) - 53) by lia.
  destruct (Zpos (digits2_pos PM) - 53) as [|pk|pk] eqn:Ek; [lia| |lia].
  cbn [shr]. rewrite iter_pos_nat.
  destruct (Pos.to_nat pk) as [|n] eqn:En; [lia|].
  rewrite shr_iter_spec by lia.
  replace (Z.of_nat n + 1) with (Zpos pk) by lia.
  replace (Z.of_nat n) with (Zpos (digits2_pos PM) - 54) by lia.
  done.
Qed.

(** The shift of [binary_round_aux] on a mantissa of exactly 53 digits. *)
Lemma shr_fexp_exact (PM : positive) (e : Z) :
  Zpos (digits2_pos PM) = 53 -> -1074 <= e ->
  shr_fexp 53 1024 (Zpos PM) e loc_Exact =
  ({| shr_m := Zpos PM; shr_r := false; shr_s := false |}, e).
Proof.
  intros HD He. unfold shr_fexp. cbn [Zdigits2 shr_record_of_loc].
  rewrite HD, fexp_normal by lia.
  replace (53 + e - 53 - e) with 0 by lia. done.
Qed.

(** Rounding a positive mantissa of more than 53 digits to binary64, away
    from the subnormal and the overflow range: the result is the quotient
    by [2 ^ k] or its successor, the successor when more than half of
    [2 ^ k] was cut off. *)
Lemma binary_round_aux_long (PM : positive) (e : Z) :
  53 < Zpos (digits2_pos PM) ->
  -1074 <= Zpos (digits2_pos PM) + e - 53 ->
  e + (Zpos (digits2_pos PM) - 53) + 1 <= 971 ->
  exists (m2 : positive) (e2 m1 : Z),
    binary_round_aux 53 1024 false (Zpos PM) e loc_Exact = S754_finite false m2 e2
    /\ Zpos PM / 2 ^ (Zpos (digits2_pos PM) - 53) <= m1
       <= Zpos PM / 2 ^ (Zpos (digits2_pos PM) - 53) + 1
    /\ (2 ^ (Zpos (digits2_pos PM) - 54) < Zpos PM mod 2 ^ (Zpos (digits2_pos PM) - 53) ->
        m1 = Zpos PM / 2 ^ (Zpos (digits2_pos PM) - 53) + 1)
    /\ ((e2 = e + (Zpos (digits2_pos PM) - 53) /\ Zpos m2 = m1)
        \/ (e2 = e + (Zpos (digits2_pos PM) - 53) + 1 /\ 2 * Zpos m2 = m1)).
Proof.
  intros HD He Hmax. pose proof (digits2_pos_bounds PM) as [HMl HMu].
  unfold binary_round_aux. rewrite shr_fexp_long by done.
  set (D := Zpos (digits2_pos PM)) in *. set (M := Zpos PM) in *.
  set (k := D - 53). assert (Hk : 1 <= k) by (unfold k; lia).
  assert (HK : 0 < 2 ^ k) by (apply Z.pow_pos_nonneg; lia).
  assert (HK1 : 0 < 2 ^ (k - 1)) by (apply Z.pow_pos_nonneg; lia).
  assert (EK : 2 ^ k = 2 ^ (k - 1) * 2).
  { replace k with (k - 1 + 1) at 1 by lia. by rewrite Z.pow_add_r by lia. }
  replace (D - 54) with (k - 1) by (unfold k; lia).
  set (m0 := M / 2 ^ k).
  assert (Hm0 : 2 ^ 52 <= m0 < 2 ^ 53).
  { unfold m0. replace (D - 1) with (52 + k) in HMl by (unfold k; lia).
    replace D with (53 + k) in HMu at 1 by (unfold k; lia).
    rewrite Z.pow_add_r in HMl, HMu by lia. split.
    - apply Z.div_le_lower_bound; lia.
    - apply Z.div_lt_upper_bound; lia. }
  fold k. fold m0.
  set (r := Z.odd (M / 2 ^ (k - 1))). set (s := negb (M mod 2 ^ (k - 1) =? 0)).
  set (m1 := round_nearest_even
               (shr_m {| shr_m := m0; shr_r := r; shr_s := s |})
               (loc_of_shr_record {| shr_m := m0; shr_r := r; shr_s := s |})).
  assert (Hm1 : m0 <= m1 <= m0 + 1).
  { unfold m1. cbn [shr_m loc_of_shr_record].
    destruct r, s; cbn [round_nearest_even]; try lia. destruct (Z.even m0); lia. }
  assert (Hup : 2 ^ (k - 1) < M mod 2 ^ k -> m1 = m0 + 1).
  { intros Hgt. rewrite EK, Z.rem_mul_r in Hgt by lia.
    pose proof (Z.mod_pos_bound M (2 ^ (k - 1)) HK1) as Hb.
    rewrite Zmod_odd in Hgt. fold r in Hgt.
    unfold m1. cbn [shr_m loc_of_shr_record].
    destruct r; [|lia].
    assert (Hs : s = true).
    { unfold s. apply negb_true_iff, Z.eqb_neq. lia. }
    rewrite Hs. done. }
  clearbody m1.
  destruct (Z.ltb_spec m1 (2 ^ 53)) as [Hlt|Hge].
  - destruct m1 as [|pm1|pm1]; [lia| |lia].
    rewrite shr_fexp_exact.
    + cbn [shr_m]. replace (e + k <=? 1024 - 53) with true
        by (symmetry; apply Z.leb_le; lia).
      exists pm1, (e + k), (Zpos pm1). split; [done|]. split; [done|].
      split; [done|]. by left.
    + apply digits2_pos_unique. lia.
    + unfold k, D. lia.
  - assert (Em1 : m1 = 2 ^ 53) by lia. subst m1.
    change (2 ^ 53) with (Zpos 9007199254740992).
    rewrite shr_fexp_long.
    + change (Zpos (digits2_pos 9007199254740992)) with 54.
      change (Zpos 9007199254740992 / 2 ^ (54 - 53)) with (Zpos 4503599627370496).
      cbn [shr_m]. replace (e + k + (54 - 53) <=? 1024 - 53) with true
        by (symmetry; apply Z.leb_le; lia).
      exists 4503599627370496%positive, (e + k + 1), (2 ^ 53).
      split; [by replace (e + k + (54 - 53)) with (e + k + 1) by lia|].
      split; [done|]. split; [done|]. right. done.
    + done.
    + change (Zpos (digits2_pos 9007199254740992)) with 54. unfold k, D. lia.
Qed.

(** A mantissa of exactly 53 digits in the normal range is kept. *)
Lemma binary_round_aux_exact (PM : positive) (e : Z) :
  Zpos (digits2_pos PM) = 53 -> -1074 <= e <= 971 ->
  binary_round_aux 53 1024 false (Zpos PM) e loc_Exact = S754_finite false PM e.
Proof.
  intros HD He. unfold binary_round_aux.
  rewrite shr_fexp_exact by (done || lia).
  cbn [shr_m loc_of_shr_record round_nearest_even].
  rewrite shr_fexp_exact by (done || lia). cbn [shr_m].
  by replace (e <=? 1024 - 53) with true by (symmetry; apply Z.leb_le; lia).
Qed.

(** [float(n)] for a positive [n] of at most 52 bits: the mantissa is [n]
    shifted to 53 bits. *)
Lemma float_of_int_pos (p : positive) :
  Zpos (digits2_pos p) <= 52 ->
  exists mz : positive,
    float_of_int (Zpos p) = S754_finite false mz (Zpos (digits2_pos p) - 53)
    /\ Zpos mz = Zpos p * 2 ^ (53 - Zpos (digits2_pos p))
    /\ 2 ^ 52 <= Zpos mz < 2 ^ 53.
Proof.
  intros Hd. pose proof (digits2_pos_bounds p) as [Hl Hu].
  set (d := Zpos (digits2_pos p)) in *.
  assert (Hd1 : 1 <= d) by (unfold d; lia).
  unfold float_of_int, binary_normalize, binary_round, shl_align.
  fold d. rewrite fexp_normal by lia.
  destruct (d + 0 - 53 - 0) as [|pk|pk] eqn:Ek; [lia|lia|].
  assert (Epk : Zpos pk = 53 - d) by lia.
  set (mz := Pos.iter xO p pk).
  assert (Emz : Zpos mz = Zpos p * 2 ^ (53 - d)).
  { unfold mz. by rewrite iter_xO_spec, Epk. }
  assert (Hmz : 2 ^ 52 <= Zpos mz < 2 ^ 53).
  { rewrite Emz.
    assert (E52 : 2 ^ 52 = 2 ^ (d - 1) * 2 ^ (53 - d))
      by (rewrite <- Z.pow_add_r by lia; f_equal; lia).
    assert (E53 : 2 ^ 53 = 2 ^ d * 2 ^ (53 - d))
      by (rewrite <- Z.pow_add_r by lia; f_equal; lia).
    assert (0 < 2 ^ (53 - d)) by (apply Z.pow_pos_nonneg; lia).
    rewrite E52, E53. nia. }
  exists mz. split; [|done].
  replace (d + 0 - 53) with (d - 53) by lia.
  apply binary_round_aux_exact; [|lia].
  apply digits2_pos_unique. lia.
Qed.

Lemma div_between (a b q : Z) : 0 < b -> q * b <= a < (q + 1) * b -> a / b = q.
Proof.
  intros Hb [Hl Hu]. symmetry. apply (Z.div_unique a b q (a - q * b)); lia.
Qed.

(** The arithmetic behind [n * 1.2]: [M] is the exact product of the two
    mantissas, [K] what the rounding divides by, [J] what [int] divides
    by; the rounded quotient [m1] falls in the [J]-block of [6 n / 5]. *)
Lemma round_core (K J X Y W M R m0 m1 r : Z) :
  K = 2 ^ 52 \/ K = 2 ^ 53 -> 8 <= J -> 2 ^ 52 <= W < 2 ^ 53 -> 0 <= r < 5 ->
  6 * X = 5 * Y + r * J -> 5 * M = 6 * X * K - W ->
  M = K * m0 + R -> 0 <= R < K -> m0 <= m1 <= m0 + 1 ->
  (K < 2 * R -> m1 = m0 + 1) ->
  Y <= m1 < Y + J.
Proof.
  intros HK HJ HW Hr HXY HM Hdiv HR Hm1 Hup.
  change (2 ^ 52) with 4503599627370496 in *.
  change (2 ^ 53) with 9007199254740992 in *.
  assert (Hrc : r = 0 \/ r = 1 \/ r = 2 \/ r = 3 \/ r = 4) by lia.
  destruct HK as [-> | ->];
    destruct Hrc as [-> | [-> | [-> | [-> | ->]]]]; lia.
Qed.

(** [int(n * 1.2)] in binary64 arithmetic is the integer part of
    [6 n / 5] for every [n] below [2 ^ 49]. *)
Lemma int_of_mul_1_2 (n : Z) :
  0 <= n < 2 ^ 49 ->
  int_of_float (float_mul (float_of_int n) float_1_2) = Some (6 * n / 5).
Proof.
  intros [Hn0 Hn]. destruct n as [|p|p]; [done| |lia].
  pose proof (digits2_pos_bounds p) as [Hpl Hpu].
  set (d := Zpos (digits2_pos p)) in *.
  assert (Hd : 1 <= d <= 49).
  { split; [unfold d; lia|].
    assert (d - 1 < 49); [|lia]. apply (Z.pow_lt_mono_r_iff 2); lia. }
  destruct (float_of_int_pos p) as (mz & Ef & Emz & Hmz); [fold d; lia|].
  fold d in Ef, Emz. rewrite Ef. unfold float_mul, float_1_2, SFmul. cbn [xorb].
  set (PM := (mz * 5404319552844595)%positive).
  assert (EM : Zpos PM = Zpos mz * 5404319552844595) by done.
  assert (HMb : 2 ^ 104 <= Zpos PM < 2 ^ 106).
  { rewrite EM. change (2 ^ 52) with 4503599627370496 in Hmz.
    change (2 ^ 53) with 9007199254740992 in Hmz.
    change (2 ^ 104) with 20282409603651670423947251286016.
    change (2 ^ 106) with 81129638414606681695789005144064. lia. }
  assert (HD : Zpos (digits2_pos PM) = 105 \/ Zpos (digits2_pos PM) = 106).
  { destruct (Z.ltb_spec (Zpos PM) (2 ^ 105)).
    - left. apply digits2_pos_unique. change (105 - 1) with 104. lia.
    - right. apply digits2_pos_unique. change (106 - 1) with 105. lia. }
  destruct (binary_round_aux_long PM (d - 53 + -52)) as (m2 & e2 & m1 & Er & Hm1 & Hup & He2);
    [lia|lia|lia|].
  rewrite Er. cbn [int_of_float cond_Zopp]. clear Er Ef.
  set (k := Zpos (digits2_pos PM) - 53) in *.
  replace (Zpos (digits2_pos PM) - 54) with (k - 1) in Hup by (unfold k; lia).
  set (j := 105 - d - k).
  assert (Hj : 3 <= j) by (unfold j, k; lia).
  assert (HJ : 8 <= 2 ^ j).
  { change 8 with (2 ^ 3). apply Z.pow_le_mono_r; lia. }
  assert (HKpos : 0 < 2 ^ k) by (apply Z.pow_pos_nonneg; unfold k; lia).
  pose proof (Z.div_mod (Zpos PM) (2 ^ k) ltac:(lia)) as Hdiv.
  pose proof (Z.mod_pos_bound (Zpos PM) (2 ^ k) HKpos) as HR.
  pose proof (Z.div_mod (6 * Zpos p) 5 ltac:(lia)) as Hq.
  pose proof (Z.mod_pos_bound (6 * Zpos p) 5 ltac:(lia)) as Hr.
  set (q := 6 * Zpos p / 5) in *. set (r := (6 * Zpos p) mod 5) in *.
  assert (EKhalf : 2 ^ k = 2 * 2 ^ (k - 1)).
  { replace k with (k - 1 + 1) at 1 by lia.
    rewrite Z.pow_add_r by (unfold k; lia). lia. }
  assert (Hblock : q * 2 ^ j <= m1 < q * 2 ^ j + 2 ^ j).
  { assert (EA : 2 ^ (53 - d) * 2 ^ 52 = 2 ^ k * 2 ^ j).
    { rewrite <- !Z.pow_add_r by (unfold j, k; lia). f_equal. unfold j. lia. }
    assert (E5 : 5 * Zpos PM = Zpos mz * (6 * 2 ^ 52 - 1))
      by (rewrite EM; change (2 ^ 52) with 4503599627370496; lia).
    destruct HD as [HD|HD].
    - (* 105 digits: K = 2^52, J = 2^(53-d) *)
      assert (Ek : k = 52) by (unfold k; lia).
      assert (EJ : 2 ^ j = 2 ^ (53 - d)) by (f_equal; unfold j; lia).
      rewrite Ek in *. rewrite EJ in *.
      apply (round_core (2 ^ 52) (2 ^ (53 - d)) (Zpos mz) (q * 2 ^ (53 - d))
               (Zpos mz) (Zpos PM) (Zpos PM mod 2 ^ 52) (Zpos PM / 2 ^ 52) m1 r);
        try done; try lia.
    - (* 106 digits: K = 2^53, J = 2^(52-d) *)
      assert (Ek : k = 53) by (unfold k; lia).
      assert (EJ : 2 ^ (53 - d) = 2 * 2 ^ j).
      { replace (53 - d) with (j + 1) by (unfold j; lia).
        rewrite Z.pow_add_r by lia. lia. }
      rewrite Ek in *.
      apply (round_core (2 ^ 53) (2 ^ j) (Zpos p * 2 ^ j) (q * 2 ^ j)
               (Zpos mz) (Zpos PM) (Zpos PM mod 2 ^ 53) (Zpos PM / 2 ^ 53) m1 r);
        try done; try lia. }
  assert (HJpos : 0 < 2 ^ j) by lia.
  f_equal. destruct He2 as [[-> <-]|[-> E2]].
  - replace (0 <=? d - 53 + -52 + k) with false
      by (symmetry; apply Z.leb_gt; unfold j in Hj; lia).
    replace (- (d - 53 + -52 + k)) with j by (unfold j; lia).
    apply div_between; lia.
  - replace (0 <=? d - 53 + -52 + k + 1) with false
      by (symmetry; apply Z.leb_gt; unfold j in Hj; lia).
    replace (- (d - 53 + -52 + k + 1)) with (j - 1) by (unfold j; lia).
    assert (EJ2 : 2 ^ j = 2 * 2 ^ (j - 1)).
    { replace j with (j - 1 + 1) at 1 by lia. rewrite Z.pow_add_r by lia. lia. }
    apply div_between; lia.
Qed.
End FloatFacts.

(** C9: the estimate is [int(word_count * 1.2)] where [word_count] is the
    number of whitespace-separated words of the text; the product is a
    binary64 product, and for every text of fewer than [2 ^ 49] words its
    integer part is that of the exact product, [12 * word_count / 10]
    rounded down. *)
Theorem token_estimate (text : string) :
  length (split text) = number_of_words text
  ∧ update_token_count text
    = int_of_float (float_mul (float_of_int (Z.of_nat (number_of_words text))) float_1_2)
  ∧ ((Z.of_nat (number_of_words text) < 2 ^ 49)%Z →
     update_token_count text = Some (12 * Z.of_nat (number_of_words text) / 10)%Z).
Proof.
  split; [apply split_length|]. unfold update_token_count. rewrite split_length.
  split; [done|]. intros Hn.
  rewrite int_of_mul_1_2 by lia. f_equal.
  change 12%Z with (2 * 6)%Z. change 10%Z with (2 * 5)%Z.
  rewrite <- Z.mul_assoc. by rewrite Z.div_mul_cancel_l by lia.
Qed.

Lemma token_estimate_witness :
  update_token_count "one two  three four five six" = Some 7%Z.
Proof.
  destruct (token_estimate "one two  three four five six") as (_ & _ & H).
  apply H. by vm_compute.
Defined.

(* --------------------------------------------------------------------- *)
(* 18. The whole effect of setData                                        *)
(* --------------------------------------------------------------------- *)

Section SetDataEffect.

Variable tree : Node.

Lemma touched_of_child (c D x : Index) :
  c ∈ file_children tree D → x ∈ touched tree c → x = D ∨ x ∈ touched tree D.
Proof.
  intros (_ & i & -> & _)%elem_of_file_children. cbn [touched].
  destruct (isValid D && bool_decide (file_children tree D ≠ []));
    [|by intros ?%elem_of_nil].
  intros [->|?]%elem_of_cons; [by left|by right].
Qed.

Lemma touched_not_file_child (D x : Index) :
  x ∈ touched tree D → x ∉ file_children tree D.
Proof. intros H1%touched_shorter H2%file_children_longer. lia. Qed.

(** Membership after [setData], index by index. *)
Lemma setData_result_spec (D : Index) (v : CheckState) (s : gset Index) (x : Index) :
  x ∈ setData_result tree D v s ↔
  if bool_decide (x = D ∨ x ∈ file_children tree D) then is_Checked v = true
  else if bool_decide (x ∈ touched tree D)
       then aggregate tree x (toggle D v s) = true
       else x ∈ s.
Proof.
  case_bool_decide as Hx.
  { destruct Hx as [->|Hx]; [apply setData_result_self|].
    by apply setData_result_file_child. }
  assert (HxD : x ≠ D) by (intros ->; apply Hx; by left).
  assert (Hxc : x ∉ file_children tree D) by (intros ?; apply Hx; by right).
  unfold setData_result. rewrite update_parent_spec.
  case_bool_decide as Ht.
  - rewrite (aggregate_ext tree x _ (toggle D v s)); [done|].
    intros c Hc. apply fold_leaf_file.
    + by apply elem_of_file_children in Hc as [? _].
    + intros Hc'. apply HxD. by apply (file_children_parent tree c).
  - rewrite fold_leaf_untouched.
    + rewrite elem_of_toggle. naive_solver.
    + done.
    + intros c Hc [->|Hin]%(touched_of_child c D x Hc); done.
Qed.

End SetDataEffect.




(** X1: the whole effect of [setData(index, value, CheckStateRole)]: the
    index and its file children carry the value; every ancestor the climb
    goes through is checked exactly when one of its own file children is;
    nothing else changes. *)
Theorem setData_effect
    (tree : Node) (idx : Index) (v : CheckState) (s : gset Index) (n : nat) :
  ∃ s' : gset Index,
    setData tree (S (S n)) idx v s = Some s' ∧
    (idx ∈ s' ↔ is_Checked v = true) ∧
    (∀ c, c ∈ file_children tree idx → (c ∈ s' ↔ is_Checked v = true)) ∧
    (∀ x, x ∈ touched tree idx →
          (x ∈ s' ↔ ∃ c, c ∈ file_children tree x ∧ c ∈ toggle idx v s)) ∧
    (∀ x, x ≠ idx → x ∉ file_children tree idx → x ∉ touched tree idx →
          (x ∈ s' ↔ x ∈ s)).
Proof.
  exists (setData_result tree idx v s). split; [apply setData_enough|].
  split; [apply setData_result_self|].
  split; [intros c Hc; by apply setData_result_file_child|]. split.
  - intros x Hx. rewrite setData_result_spec, bool_decide_eq_false_2.
    + rewrite bool_decide_eq_true_2 by done. apply aggregate_true.
    + intros [->|Hc]; [by apply touched_not_self in Hx|].
      by apply touched_not_file_child in Hx.
  - intros x H1 H2 H3. rewrite setData_result_spec.
    rewrite bool_decide_eq_false_2 by naive_solver.
    by rewrite bool_decide_eq_false_2.
Qed.

(** X2: [setData] with the same index and value a second time changes
    nothing. *)
Theorem setData_twice
    (tree : Node) (idx : Index) (v : CheckState) (s : gset Index) (n : nat) :
  ∃ s' : gset Index,
    setData tree (S (S n)) idx v s = Some s' ∧
    setData tree (S (S n)) idx v s' = Some s'.
Proof.
  exists (setData_result tree idx v s). split; [apply setData_enough|].
  rewrite setData_enough. f_equal. apply set_eq. intros x.
  rewrite (setData_result_spec tree idx v (setData_result tree idx v s)).
  case_bool_decide as Hx.
  { rewrite setData_result_spec. by rewrite bool_decide_eq_true_2. }
  case_bool_decide as Ht.
  - rewrite (aggregate_ext tree x (toggle idx v (setData_result tree idx v s))
               (toggle idx v s)).
    + rewrite setData_result_spec. rewrite bool_decide_eq_false_2 by done.
      by rewrite bool_decide_eq_true_2.
    + intros c Hc. rewrite !elem_of_toggle.
      destruct (decide (c = idx)) as [->|Hne]; [naive_solver|].
      assert (Hcs : c ∈ setData_result tree idx v s ↔ c ∈ s).
      { apply setData_result_other_file; [|done|].
        - by apply elem_of_file_children in Hc as [? _].
        - intros Hc'. apply Hx. left. by apply (file_children_parent tree c). }
      naive_solver.
  - rewrite (setData_result_spec tree idx v s x).
    rewrite bool_decide_eq_false_2 by done.
    by rewrite bool_decide_eq_false_2.
Qed.

(** X3: after [setData] on a file, its directory is checked exactly when
    the value was [Checked] or another file of the directory is checked:
    unchecking one file of a directory leaves the directory checked as
    long as one of its other files is. *)
Theorem parent_after_file_toggle
    (tree : Node) (p c : Index) (v : CheckState) (s : gset Index) (n : nat) :
  c ∈ file_children tree p → isValid p = true →
  ∃ s' : gset Index,
    setData tree (S (S n)) c v s = Some s' ∧
    (p ∈ s' ↔ is_Checked v = true
              ∨ ∃ c', c' ∈ file_children tree p ∧ c' ≠ c ∧ c' ∈ s).
Proof.
  intros Hc Hv. exists (setData_result tree c v s). split; [apply setData_enough|].
  rewrite setData_result_spec.
  assert (Hpc : p ≠ c).
  { intros ->. apply file_children_longer in Hc. lia. }
  assert (Hcf : file_children tree c = []).
  { apply file_children_of_file. by apply elem_of_file_children in Hc as [? _]. }
  rewrite bool_decide_eq_false_2
    by (rewrite Hcf; intros [?|?%elem_of_nil]; done).
  rewrite bool_decide_eq_true_2 by (by apply touched_of_file_child).
  rewrite aggregate_true. split.
  - intros (c' & Hc' & Hin). apply elem_of_toggle in Hin as [[-> ?]|[? ?]];
      [by left|right; by exists c'].
  - intros [Hchk|(c' & Hc' & Hne & Hin)].
    + exists c. split; [done|]. apply elem_of_toggle. by left.
    + exists c'. split; [done|]. apply elem_of_toggle. by right.
Qed.

Lemma parent_after_file_toggle_witness :
  ∃ s' : gset Index,
    setData Sample.proj_tree 2 Sample.a_py Unchecked
      {[Sample.a_py; Sample.b_py; Sample.proj]} = Some s' ∧
    (Sample.proj ∈ s' ↔ is_Checked Unchecked = true
       ∨ ∃ c', c' ∈ file_children Sample.proj_tree Sample.proj ∧ c' ≠ Sample.a_py
               ∧ c' ∈ ({[Sample.a_py; Sample.b_py; Sample.proj]} : gset Index)).
Proof.
  apply (parent_after_file_toggle Sample.proj_tree Sample.proj Sample.a_py Unchecked
           {[Sample.a_py; Sample.b_py; Sample.proj]} 0).
  - vm_compute. set_solver.
  - reflexivity.
Defined.

(** X4: as long as the model presents the same tree, in every selection
    set reached from the empty one by [setData] calls on that tree, a
    valid directory that has files among its children is checked exactly
    when one of those files is. *)
Theorem reachable_sets_carry_aggregate (tree : Node) (s : gset Index) (p : Index) :
  reachable tree s → isValid p = true → file_children tree p ≠ [] →
  (p ∈ s ↔ ∃ c, c ∈ file_children tree p ∧ c ∈ s).
Proof. intros Hs. by apply reachable_consistent. Qed.

Lemma reachable_sets_carry_aggregate_witness :
  Sample.proj ∈ ({[Sample.a_py; Sample.proj]} : gset Index) ↔
  ∃ c, c ∈ file_children Sample.proj_tree Sample.proj
       ∧ c ∈ ({[Sample.a_py; Sample.proj]} : gset Index).
Proof.
  apply (reachable_sets_carry_aggregate Sample.proj_tree
           {[Sample.a_py; Sample.proj]} Sample.proj).
  - apply (reachable_setData Sample.proj_tree 1 Sample.a_py Checked ∅).
    + apply reachable_empty.
    + by vm_compute.
  - reflexivity.
  - vm_compute. discriminate.
Defined.

(* --------------------------------------------------------------------- *)
(* 19. Bulk operations: order and repetition                              *)
(* --------------------------------------------------------------------- *)

Section BulkOrder.

Variable tree : Node.

Lemma fold_result_leaf (F : list Index) (v : CheckState) (s : gset Index) :
  (∀ f, f ∈ F → isDir tree f = false) →
  fold_left (fun s' f => setData_result tree f v s') F s =
  fold_left (fun s' f => setData_leaf tree f v s') F s.
Proof.
  revert s. induction F as [|f F IH]; intros s HF; simpl; [done|].
  rewrite setData_result_no_files by (apply file_children_of_file, HF; left).
  apply IH. intros f' ?. apply HF. by right.
Qed.

Lemma toggle_comm (a b : Index) (v : CheckState) (s : gset Index) :
  toggle a v (toggle b v s) = toggle b v (toggle a v s).
Proof. unfold toggle. destruct (is_Checked v); set_solver. Qed.

Lemma aggregate_toggle_leaf (x a b : Index) (v : CheckState) (s : gset Index) :
  aggregate tree x (toggle a v (setData_leaf tree b v s)) =
  aggregate tree x (toggle a v (toggle b v s)).
Proof.
  apply aggregate_ext. intros c Hc. rewrite !elem_of_toggle.
  unfold setData_leaf.
  rewrite update_parent_file by (by apply elem_of_file_children in Hc as [? _]).
  by rewrite elem_of_toggle.
Qed.

Lemma aggregate_toggle_other (x a : Index) (v : CheckState) (s : gset Index) :
  isDir tree a = false → x ∉ touched tree a → isValid x = true →
  aggregate tree x (toggle a v s) = aggregate tree x s.
Proof.
  intros Ha Hx Hv. apply aggregate_ext. intros c Hc. rewrite elem_of_toggle.
  assert (c ≠ a) by (intros ->; apply Hx; by apply touched_of_file_child).
  naive_solver.
Qed.

(** Two files can be set to the same value in either order. *)
Lemma setData_leaf_comm (f1 f2 : Index) (v : CheckState) (s : gset Index) :
  isDir tree f1 = false → isDir tree f2 = false →
  setData_leaf tree f1 v (setData_leaf tree f2 v s) =
  setData_leaf tree f2 v (setData_leaf tree f1 v s).
Proof.
  intros H1 H2. apply set_eq. intros x.
  rewrite (elem_of_setData_leaf tree f1 v (setData_leaf tree f2 v s) x).
  rewrite (elem_of_setData_leaf tree f2 v (setData_leaf tree f1 v s) x).
  rewrite !aggregate_toggle_leaf.
  assert (Hleaf : ∀ a b, isDir tree a = false → x ∉ touched tree b →
            (x ∈ toggle a v (setData_leaf tree b v s) ↔ x ∈ toggle a v (toggle b v s))).
  { intros a b Ha Hb. rewrite !(elem_of_toggle x a).
    unfold setData_leaf. by rewrite update_parent_untouched. }
  assert (Hdir : ∀ a b, isDir tree a = false → x ∈ touched tree b →
            (x ∈ toggle a v (setData_leaf tree b v s)
             ↔ aggregate tree x (toggle b v s) = true)).
  { intros a b Ha Hb. rewrite elem_of_toggle.
    assert (x ≠ a) by (intros ->; apply touched_isDir in Hb; congruence).
    unfold setData_leaf. rewrite update_parent_touched by done. naive_solver. }
  destruct (decide (x ∈ touched tree f1)) as [Ht1|Ht1];
    destruct (decide (x ∈ touched tree f2)) as [Ht2|Ht2].
  - rewrite !bool_decide_eq_true_2 by done. by rewrite toggle_comm.
  - rewrite bool_decide_eq_true_2, bool_decide_eq_false_2 by done.
    rewrite (Hdir f2 f1 H2 Ht1). rewrite toggle_comm.
    rewrite (aggregate_toggle_other x f2 v (toggle f1 v s)); [done|done|done|].
    by apply touched_has_files in Ht1 as [? _].
  - rewrite bool_decide_eq_false_2, bool_decide_eq_true_2 by done.
    rewrite (Hdir f1 f2 H1 Ht2). rewrite toggle_comm.
    rewrite (aggregate_toggle_other x f1 v (toggle f2 v s)); [done|done|done|].
    by apply touched_has_files in Ht2 as [? _].
  - rewrite !bool_decide_eq_false_2 by done.
    rewrite (Hleaf f1 f2 H1 Ht2), (Hleaf f2 f1 H2 Ht1). by rewrite toggle_comm.
Qed.

Lemma fold_leaf_permutation (F1 F2 : list Index) (v : CheckState) (s : gset Index) :
  F1 ≡ₚ F2 → (∀ f, f ∈ F1 → isDir tree f = false) →
  fold_left (fun s' f => setData_leaf tree f v s') F1 s =
  fold_left (fun s' f => setData_leaf tree f v s') F2 s.
Proof.
  intros HP. revert s. induction HP as [|f l1 l2 HP IH|f g l|l1 l2 l3 HP1 IH1 HP2 IH2];
    intros s HF; simpl.
  - done.
  - apply IH. intros f' ?. apply HF. by right.
  - f_equal. apply setData_leaf_comm; apply HF; set_solver.
  - rewrite IH1 by done. apply IH2. intros f Hf. apply HF. by rewrite HP1.
Qed.

(** Setting the files of [F] to [v2] erases whatever an earlier pass over
    [F] did. *)
Lemma fold_setData_agree (F : list Index) (v : CheckState) (s1 s2 : gset Index) :
  (∀ f, f ∈ F → isDir tree f = false) →
  (∀ x, ¬ affected tree F x → (x ∈ s1 ↔ x ∈ s2)) →
  fold_left (fun s' f => setData_result tree f v s') F s1 =
  fold_left (fun s' f => setData_result tree f v s') F s2.
Proof.
  revert s1 s2. induction F as [|f F IH]; intros s1 s2 HF Hag; simpl.
  - apply set_eq. intros x. apply Hag. intros [?%elem_of_nil|(f & ?%elem_of_nil & _)]; done.
  - apply IH; [intros f' ?; apply HF; by right|].
    intros x Hx.
    rewrite !setData_result_no_files
      by (apply file_children_of_file, HF; left).
    rewrite !elem_of_setData_leaf.
    case_bool_decide as Ht.
    + rewrite (aggregate_ext tree x (toggle f v s1) (toggle f v s2)); [done|].
      intros c Hc. rewrite !elem_of_toggle.
      destruct (decide (c = f)) as [->|Hne]; [naive_solver|].
      assert (Hcd : isDir tree c = false) by (by apply elem_of_file_children in Hc as [? _]).
      assert (Hxv : isValid x = true) by (by apply touched_has_files in Ht as [? _]).
      assert (Hc12 : c ∈ s1 ↔ c ∈ s2).
      { apply Hag. intros [Hin|(f' & _ & Ht')].
        - apply elem_of_cons in Hin as [?|Hin]; [done|].
          apply Hx. right. exists c. split; [done|]. by apply touched_of_file_child.
        - apply touched_isDir in Ht'. congruence. }
      naive_solver.
    + rewrite !elem_of_toggle.
      destruct (decide (x = f)) as [->|Hne]; [naive_solver|].
      assert (Hx12 : x ∈ s1 ↔ x ∈ s2).
      { apply Hag. intros [Hin|(f' & Hf' & Ht')].
        - apply elem_of_cons in Hin as [?|Hin]; [done|]. apply Hx. by left.
        - apply elem_of_cons in Hf' as [->|Hf']; [done|].
          apply Hx. right. by exists f'. }
      naive_solver.
Qed.

Lemma fold_setData_absorbs (F : list Index) (v1 v2 : CheckState) (s : gset Index) :
  (∀ f, f ∈ F → isDir tree f = false) →
  fold_left (fun s' f => setData_result tree f v2 s') F
    (fold_left (fun s' f => setData_result tree f v1 s') F s) =
  fold_left (fun s' f => setData_result tree f v2 s') F s.
Proof.
  intros HF. apply fold_setData_agree; [done|].
  intros x Hx. apply fold_setData_unaffected; [|done].
  intros f Hf. by apply file_children_of_file, HF.
Qed.

Lemma fold_setData_member (F : list Index) (v : CheckState) (s : gset Index) (x : Index) :
  (∀ f, f ∈ F → isDir tree f = false) → x ∈ F →
  (x ∈ fold_left (fun s' f => setData_result tree f v s') F s ↔ is_Checked v = true).
Proof. intros HF Hx. rewrite fold_result_leaf by done. by apply fold_leaf_set. Qed.

Lemma fold_setData_other_file (F : list Index) (v : CheckState) (s : gset Index) (x : Index) :
  (∀ f, f ∈ F → isDir tree f = false) → isDir tree x = false → x ∉ F →
  (x ∈ fold_left (fun s' f => setData_result tree f v s') F s ↔ x ∈ s).
Proof. intros HF Hd Hx. rewrite fold_result_leaf by done. by apply fold_leaf_file. Qed.

End BulkOrder.

(** X5: setting a list of files to one value, as [select_all_files] and
    [deselect_all_files] do, gives the same selection set whatever the
    order of the list. *)
Theorem setData_each_order
    (tree : Node) (F1 F2 : list Index) (v : CheckState) (s : gset Index) (n : nat) :
  F1 ≡ₚ F2 → (∀ f, f ∈ F1 → isDir tree f = false) →
  ∃ s' : gset Index,
    setData_each tree (S (S n)) F1 v s = Some s' ∧
    setData_each tree (S (S n)) F2 v s = Some s'.
Proof.
  intros HP HF. eexists. split; [apply setData_each_enough|].
  rewrite setData_each_enough. f_equal. symmetry.
  assert (HF2 : ∀ f, f ∈ F2 → isDir tree f = false)
    by (intros f Hf; apply HF; by rewrite HP).
  rewrite !fold_result_leaf by done. by apply fold_leaf_permutation.
Qed.

Lemma setData_each_order_witness :
  ∃ s' : gset Index,
    setData_each Sample.proj_tree 2 [Sample.a_py; Sample.c_py; Sample.b_py] Checked
      {[Sample.logo_png]} = Some s' ∧
    setData_each Sample.proj_tree 2 [Sample.c_py; Sample.b_py; Sample.a_py] Checked
      {[Sample.logo_png]} = Some s'.
Proof.
  apply (setData_each_order Sample.proj_tree
           [Sample.a_py; Sample.c_py; Sample.b_py]
           [Sample.c_py; Sample.b_py; Sample.a_py] Checked {[Sample.logo_png]} 0).
  - apply (Permutation_cons_app [Sample.c_py; Sample.b_py] []). done.
  - intros f Hf. repeat (apply elem_of_cons in Hf as [->|Hf]; [reflexivity|]).
    by apply elem_of_nil in Hf.
Defined.

(* --------------------------------------------------------------------- *)
(* 20. The bulk operations of the window                                  *)
(* --------------------------------------------------------------------- *)

Section WindowBulk.

Variable host : Host.

Lemma bulk_files (fuel : nat) (w : MainWindow) :
  walk_cost_at (tree host) (path_index host (rootPath (model w))) ≤ fuel →
  ∃ files : list Index,
    get_all_file_indexes (tree host) (extensions (model w)) fuel
      (path_index host (rootPath (model w))) = Some files
    ∧ ∀ f, f ∈ files → isDir (tree host) f = false.
Proof.
  intros Hcost.
  destruct (get_all_file_indexes_spec (tree host) (extensions (model w)) fuel
              (path_index host (rootPath (model w))) Hcost)
    as (files & Hfiles & _ & Hmem).
  exists files. split; [done|]. intros f (_ & Hf & _)%Hmem.
  by apply is_file_spec in Hf as [_ ?].
Qed.

Lemma select_all_files_eq (n : nat) (w : MainWindow) (files : list Index) :
  truthy (base_directory w) = true →
  get_all_file_indexes (tree host) (extensions (model w)) (S (S n))
    (path_index host (rootPath (model w))) = Some files →
  select_all_files host (S (S n)) w =
  Some (update_final_prompt host
          (with_model
             (with_checked
                (fold_left (fun s' x => setData_result (tree host) x Checked s') files
                   (checked_indexes (model w))) (model w)) w)).
Proof.
  intros Ht Hf. unfold select_all_files. rewrite Ht. cbn [negb]. rewrite Hf.
  cbn [mbind option_bind]. by rewrite setData_each_enough.
Qed.

Lemma deselect_all_files_eq (n : nat) (w : MainWindow) (files : list Index) :
  truthy (base_directory w) = true →
  get_all_file_indexes (tree host) (extensions (model w)) (S (S n))
    (path_index host (rootPath (model w))) = Some files →
  deselect_all_files host (S (S n)) w =
  Some (update_final_prompt host
          (with_model
             (with_checked
                (fold_left (fun s' x => setData_result (tree host) x Unchecked s') files
                   (checked_indexes (model w))) (model w)) w)).
Proof.
  intros Ht Hf. unfold deselect_all_files. rewrite Ht. cbn [negb]. rewrite Hf.
  cbn [mbind option_bind]. by rewrite setData_each_enough.
Qed.

End WindowBulk.

(** X6: a bulk operation erases the one before it: [select_all_files] and
    [deselect_all_files] are each idempotent, and [deselect_all_files]
    after [select_all_files] leaves the window as [deselect_all_files]
    alone does. *)
Theorem bulk_operations_absorb (host : Host) (fuel : nat) (w : MainWindow) :
  2 ≤ fuel →
  walk_cost_at (tree host) (path_index host (rootPath (model w))) ≤ fuel →
  ∃ w_s w_d : MainWindow,
    select_all_files host fuel w = Some w_s ∧
    deselect_all_files host fuel w = Some w_d ∧
    select_all_files host fuel w_s = Some w_s ∧
    deselect_all_files host fuel w_d = Some w_d ∧
    deselect_all_files host fuel w_s = Some w_d.
Proof.
  intros H2 Hcost.
  destruct (truthy (base_directory w)) eqn:Ht.
  2:{ exists w, w. unfold select_all_files, deselect_all_files. rewrite Ht. done. }
  destruct (bulk_files host fuel w Hcost) as (files & Hfiles & Hnd).
  destruct fuel as [|[|n]]; [lia|lia|].
  rewrite (select_all_files_eq host n w files Ht Hfiles).
  rewrite (deselect_all_files_eq host n w files Ht Hfiles).
  eexists _, _. split; [reflexivity|]. split; [reflexivity|].
  split; [|split].
  - rewrite (select_all_files_eq host n _ files); [|exact Ht|exact Hfiles].
    cbn [update_final_prompt with_final_prompt with_model with_checked model
         checked_indexes].
    rewrite (fold_setData_absorbs (tree host) files Checked Checked) by done.
    reflexivity.
  - rewrite (deselect_all_files_eq host n _ files); [|exact Ht|exact Hfiles].
    cbn [update_final_prompt with_final_prompt with_model with_checked model
         checked_indexes].
    rewrite (fold_setData_absorbs (tree host) files Unchecked Unchecked) by done.
    reflexivity.
  - rewrite (deselect_all_files_eq host n _ files); [|exact Ht|exact Hfiles].
    cbn [update_final_prompt with_final_prompt with_model with_checked model
         checked_indexes].
    rewrite (fold_setData_absorbs (tree host) files Checked Unchecked) by done.
    reflexivity.
Qed.

Lemma bulk_operations_absorb_witness :
  ∃ w_s w_d : MainWindow,
    select_all_files Sample.host 3 Sample.marked = Some w_s ∧
    deselect_all_files Sample.host 3 Sample.marked = Some w_d ∧
    select_all_files Sample.host 3 w_s = Some w_s ∧
    deselect_all_files Sample.host 3 w_d = Some w_d ∧
    deselect_all_files Sample.host 3 w_s = Some w_d.
Proof.
  apply (bulk_operations_absorb Sample.host 3 Sample.marked).
  - lia.
  - vm_compute. lia.
Defined.

(** X7: with a base directory, [select_all_files] leaves every index
    [get_all_file_indexes] returns checked and [deselect_all_files] leaves
    each unchecked; every other entry that is not a directory keeps its
    state, and the watch list is not refreshed. *)
Theorem bulk_postcondition (host : Host) (fuel : nat) (w : MainWindow) :
  truthy (base_directory w) = true → 2 ≤ fuel →
  walk_cost_at (tree host) (path_index host (rootPath (model w))) ≤ fuel →
  ∃ (files : list Index) (w_s w_d : MainWindow),
    get_all_file_indexes (tree host) (extensions (model w)) fuel
      (path_index host (rootPath (model w))) = Some files ∧
    select_all_files host fuel w = Some w_s ∧
    deselect_all_files host fuel w = Some w_d ∧
    (∀ x, x ∈ files →
          x ∈ checked_indexes (model w_s) ∧ x ∉ checked_indexes (model w_d)) ∧
    (∀ x, isDir (tree host) x = false → x ∉ files →
          (x ∈ checked_indexes (model w_s) ↔ x ∈ checked_indexes (model w))
          ∧ (x ∈ checked_indexes (model w_d) ↔ x ∈ checked_indexes (model w))) ∧
    file_watcher w_s = file_watcher w ∧ file_watcher w_d = file_watcher w.
Proof.
  intros Ht H2 Hcost.
  destruct (bulk_files host fuel w Hcost) as (files & Hfiles & Hnd).
  destruct fuel as [|[|n]]; [lia|lia|].
  exists files. eexists _, _. split; [done|].
  split; [apply (select_all_files_eq host n w files Ht Hfiles)|].
  split; [apply (deselect_all_files_eq host n w files Ht Hfiles)|].
  cbn [update_final_prompt with_final_prompt with_model with_checked model
       checked_indexes file_watcher].
  split; [|split; [|done]].
  - intros x Hx. split.
    + by apply fold_setData_member.
    + intros Hin. apply fold_setData_member in Hin; done.
  - intros x Hd Hx. split; by apply fold_setData_other_file.
Qed.

Lemma bulk_postcondition_witness :
  ∃ (files : list Index) (w_s w_d : MainWindow),
    get_all_file_indexes (tree Sample.host) (extensions (model Sample.marked)) 3
      (path_index Sample.host (rootPath (model Sample.marked))) = Some files ∧
    select_all_files Sample.host 3 Sample.marked = Some w_s ∧
    deselect_all_files Sample.host 3 Sample.marked = Some w_d ∧
    (∀ x, x ∈ files →
          x ∈ checked_indexes (model w_s) ∧ x ∉ checked_indexes (model w_d)) ∧
    (∀ x, isDir (tree Sample.host) x = false → x ∉ files →
          (x ∈ checked_indexes (model w_s) ↔ x ∈ checked_indexes (model Sample.marked))
          ∧ (x ∈ checked_indexes (model w_d) ↔ x ∈ checked_indexes (model Sample.marked))) ∧
    file_watcher w_s = file_watcher Sample.marked
    ∧ file_watcher w_d = file_watcher Sample.marked.
Proof.
  apply (bulk_postcondition Sample.host 3 Sample.marked).
  - reflexivity.
  - lia.
  - vm_compute. lia.
Defined.



(* --------------------------------------------------------------------- *)
(* 21. What the view shows after setData                                  *)
(* --------------------------------------------------------------------- *)

(** X9: [data] reads back what [setData] stored: [Checked] after
    [Checked], and [Unchecked] after any other value, [PartiallyChecked]
    included; [data] never answers [PartiallyChecked]. *)
Theorem data_after_setData
    (tree : Node) (idx : Index) (v : CheckState) (s : gset Index) (n : nat) :
  (∃ s' : gset Index,
     setData tree (S (S n)) idx v s = Some s' ∧
     data s' idx = if is_Checked v then Checked else Unchecked)
  ∧ ∀ x : Index, data s x ≠ PartiallyChecked.
Proof.
  split.
  - exists (setData_result tree idx v s). split; [apply setData_enough|].
    unfold data, is_checked. pose proof (setData_result_self tree idx v s) as H.
    case_bool_decide as Hin.
    + apply H in Hin. by rewrite Hin.
    + destruct (is_Checked v); [|done]. exfalso. apply Hin. by apply H.
  - intros x. unfold data. by destruct (is_checked s x).
Qed.

(* --------------------------------------------------------------------- *)
(* 22. The window: what is watched and what is read                       *)
(* --------------------------------------------------------------------- *)

Section WindowFacts.

Variable host : Host.

(** The loop of [update_file_watcher], on any list of indexes. *)
Lemma watch_loop_spec (l : list Index) (acc : list string) :
  fold_left
    (fun (paths : list string) (idx : Index) =>
       if isDir (tree host) idx then paths
       else
         let file_path := filePath host idx in
         if os_isfile host file_path then (paths ++ [file_path])%list else paths)
    l acc
  = acc ++ omap (fun idx =>
                   if isDir (tree host) idx then None
                   else if os_isfile host (filePath host idx)
                        then Some (filePath host idx) else None) l.
Proof.
  revert acc. induction l as [|idx l IH]; intros acc; simpl.
  - by rewrite app_nil_r.
  - rewrite IH. destruct (isDir (tree host) idx); [done|].
    destruct (os_isfile host (filePath host idx)); [|done].
    by rewrite <- app_assoc.
Qed.

Lemma elem_of_paths_to_watch (m : Model) (p : string) :
  p ∈ paths_to_watch host m ↔
  ∃ idx, idx ∈ checked_indexes m ∧ isDir (tree host) idx = false
         ∧ os_isfile host (filePath host idx) = true ∧ filePath host idx = p.
Proof.
  unfold paths_to_watch. rewrite watch_loop_spec, app_nil_l, list_elem_of_omap.
  split.
  - intros (idx & Hin%elem_of_elements & Hp). exists idx.
    destruct (isDir (tree host) idx); [done|].
    destruct (os_isfile host (filePath host idx)); [|done].
    naive_solver.
  - intros (idx & Hin & Hd & Hf & <-). exists idx.
    split; [by apply elem_of_elements|]. by rewrite Hd, Hf.
Qed.

(** Nothing is read when every checked index is a directory, has an
    extension outside the allow-list, or cannot be read. *)
Lemma read_selected_nothing (base : string) (m : Model) :
  (∀ idx, idx ∈ checked_indexes m →
          isDir (tree host) idx = true
          ∨ index_valid (tree host) (extensions m) idx = false
          ∨ read_text host (filePath host idx) = None) →
  read_selected host base m = ([], 0).
Proof.
  intros H. destruct (read_selected_spec host base m) as [Hmem Hlen].
  revert Hmem Hlen. destruct (read_selected host base m) as [l k].
  cbn [fst snd]. intros Hmem ->. destruct l as [|b l]; [done|]. exfalso.
  destruct (proj1 (Hmem b)) as (idx & content & Hin & Hd & Hv & Hr & _); [left|].
  destruct (H idx Hin) as [?|[?|?]]; congruence.
Qed.

Lemma fold_setData_None (fuel : nat) (l : list Index) (v : CheckState) :
  fold_left (fun acc idx => s' ← acc; setData (tree host) fuel idx v s') l None = None.
Proof. by induction l. Qed.

Lemma reachable_setData_each (fuel : nat) (l : list Index) (v : CheckState)
    (s s' : gset Index) :
  reachable (tree host) s → setData_each (tree host) fuel l v s = Some s' →
  reachable (tree host) s'.
Proof.
  unfold setData_each. revert s. induction l as [|x l IH]; intros s Hs H.
  - cbn [fold_left] in H. by inversion H; subst.
  - cbn [fold_left] in H.
    change (Some s ≫= _) with (setData (tree host) fuel x v s) in H.
    destruct (setData (tree host) fuel x v s) as [s1|] eqn:E.
    + apply (IH s1); [|done]. by apply (reachable_setData _ fuel x v s).
    + by rewrite fold_setData_None in H.
Qed.

(** The selection set of a window the program reaches is one the model
    reaches. *)
Lemma window_reachable_selection (w : MainWindow) :
  window_reachable host w → reachable (tree host) (checked_indexes (model w)).
Proof.
  induction 1 as [last|d w _ IH|fuel idx v w w' _ IH H|w _ IH|w _ IH
                  |fuel w w' _ IH H|fuel w w' _ IH H
                  |t w _ IH|b w _ IH|t w _ IH|b w _ IH|t w _ IH];
    try exact IH.
  - unfold init, load_last_directory. cbn [last_directory_txt].
    destruct last as [c|]; [|exact (reachable_empty _)].
    destruct (os_isdir host (strip (universal_newlines c))); exact (reachable_empty _).
  - unfold select_base_directory. destruct (is_empty d); [exact IH|].
    unfold save_last_directory.
    destruct (writable host (config_file host)); exact (reachable_empty _).
  - unfold check_item in H.
    destruct (setData (tree host) fuel idx v (checked_indexes (model w)))
      as [s1|] eqn:E; [|done].
    inversion H; subst. by apply (reachable_setData _ fuel idx v _ s1 IH).
  - unfold select_all_files in H.
    destruct (negb (truthy (base_directory w))); [by inversion H; subst|].
    destruct (get_all_file_indexes _ _ _ _) as [files|]; [|done].
    cbn [mbind option_bind] in H.
    destruct (setData_each (tree host) fuel files Checked _) as [s1|] eqn:E; [|done].
    inversion H; subst. by apply (reachable_setData_each fuel files Checked _ s1 IH).
  - unfold deselect_all_files in H.
    destruct (negb (truthy (base_directory w))); [by inversion H; subst|].
    destruct (get_all_file_indexes _ _ _ _) as [files|]; [|done].
    cbn [mbind option_bind] in H.
    destruct (setData_each (tree host) fuel files Unchecked _) as [s1|] eqn:E; [|done].
    inversion H; subst. by apply (reachable_setData_each fuel files Unchecked _ s1 IH).
Qed.

End WindowFacts.

(** X10: after a click in the tree the watch list holds exactly the paths
    of the checked entries that are not directories and that exist as
    files; the allow-list of extensions plays no part in it. *)
Theorem watched_after_click (host : Host) (w : MainWindow) (p : string) :
  p ∈ file_watcher (tree_item_clicked host w) ↔
  ∃ idx, idx ∈ checked_indexes (model w) ∧ isDir (tree host) idx = false
         ∧ os_isfile host (filePath host idx) = true ∧ filePath host idx = p.
Proof. apply elem_of_paths_to_watch. Qed.

(** X11: checked entries that are directories, have an extension outside
    the allow-list or cannot be read leave no trace in the document: it is
    the document of the empty selection.  So is every document assembled
    without a base directory. *)
Theorem unread_selection_is_invisible (host : Host) (w : MainWindow) :
  (truthy (base_directory w) = false
   ∨ ∀ idx, idx ∈ checked_indexes (model w) →
            isDir (tree host) idx = true
            ∨ index_valid (tree host) (extensions (model w)) idx = false
            ∨ read_text host (filePath host idx) = None) →
  final_prompt (update_final_prompt host w)
  = final_prompt (update_final_prompt host (with_model (with_checked ∅ (model w)) w)).
Proof.
  intros H. cbn [update_final_prompt with_final_prompt final_prompt].
  unfold final_prompt_content, content_list.
  cbn [with_model with_checked base_directory model tasktype_checkbox
       tasktype_combo tasktypes task_instruction presets_checkbox presets_combo
       presets].
  destruct (base_directory w) as [base|]; [|done].
  destruct (is_empty base) eqn:Hb; [done|].
  destruct H as [H|H]; [cbn [truthy] in H; by rewrite Hb in H|].
  rewrite (read_selected_nothing host base (model w)) by done.
  rewrite read_selected_nothing; [done|].
  intros idx Hin. exfalso. revert Hin. apply not_elem_of_empty.
Qed.

Lemma unread_selection_is_invisible_witness :
  final_prompt (update_final_prompt Sample.host Sample.marked)
  = final_prompt (update_final_prompt Sample.host
      (with_model (with_checked ∅ (model Sample.marked)) Sample.marked)).
Proof.
  apply (unread_selection_is_invisible Sample.host Sample.marked).
  right. intros idx Hin.
  change (idx ∈ ({[Sample.logo_png; Sample.sub]} : gset Index)) in Hin.
  apply elem_of_union in Hin as [->%elem_of_singleton| ->%elem_of_singleton].
  - right. left. by vm_compute.
  - left. by vm_compute.
Defined.

(** X12: checking a file that the allow-list admits and that can be read
    puts it into the selection set and its section into the document; if
    it exists as a file, its path is watched. *)
Theorem checked_file_enters_document
    (host : Host) (n : nat) (f : Index) (w : MainWindow) (base content : string) :
  base_directory w = Some base → base ≠ EmptyString →
  isDir (tree host) f = false →
  index_valid (tree host) (extensions (model w)) f = true →
  read_text host (filePath host f) = Some content →
  ∃ w' : MainWindow,
    check_item host (S (S n)) f Checked w = Some w' ∧
    f ∈ checked_indexes (model w') ∧
    occurs_in (file_section (os_relpath host (filePath host f) base) content)
      (final_prompt w') ∧
    (os_isfile host (filePath host f) = true → filePath host f ∈ file_watcher w').
Proof.
  intros Hb Hne Hd Hv Hr. unfold check_item. rewrite setData_enough.
  cbn [mbind option_bind]. eexists. split; [reflexivity|].
  assert (Hin : f ∈ setData_result (tree host) f Checked (checked_indexes (model w)))
    by (by apply setData_result_self).
  split; [exact Hin|]. split.
  - unfold tree_item_clicked. apply (section_in_final_prompt host _ base); [exact Hb|done|].
    apply read_selected_spec. exists f, content. by repeat split.
  - intros Hf. apply elem_of_paths_to_watch. exists f. by repeat split.
Qed.

Lemma checked_file_enters_document_witness :
  ∃ w' : MainWindow,
    check_item Sample.host 2 Sample.a_py Checked Sample.opened = Some w' ∧
    Sample.a_py ∈ checked_indexes (model w') ∧
    occurs_in (file_section
                 (os_relpath Sample.host (filePath Sample.host Sample.a_py) "/proj")
                 "print(1)")
      (final_prompt w') ∧
    (os_isfile Sample.host (filePath Sample.host Sample.a_py) = true →
     filePath Sample.host Sample.a_py ∈ file_watcher w').
Proof.
  apply (checked_file_enters_document Sample.host 0 Sample.a_py Sample.opened
           "/proj" "print(1)").
  - reflexivity.
  - discriminate.
  - reflexivity.
  - by vm_compute.
  - reflexivity.
Defined.

(** X13: unchecking a file takes it out of the selection set, and the
    sections read afterwards are exactly those of the other checked files:
    no other file enters or leaves the document. *)
Theorem unchecked_file_leaves_document
    (host : Host) (n : nat) (f : Index) (w : MainWindow) (base : string) :
  isDir (tree host) f = false →
  ∃ w' : MainWindow,
    check_item host (S (S n)) f Unchecked w = Some w' ∧
    (f ∉ checked_indexes (model w')) ∧
    ∀ b, b ∈ fst (read_selected host base (model w')) ↔
         ∃ idx content,
           idx ≠ f ∧ idx ∈ checked_indexes (model w)
           ∧ isDir (tree host) idx = false
           ∧ index_valid (tree host) (extensions (model w)) idx = true
           ∧ read_text host (filePath host idx) = Some content
           ∧ b = file_section (os_relpath host (filePath host idx) base) content.
Proof.
  intros Hd. unfold check_item. rewrite setData_enough.
  cbn [mbind option_bind]. eexists. split; [reflexivity|].
  assert (Hout : f ∉ setData_result (tree host) f Unchecked (checked_indexes (model w))).
  { intros Hin. by apply setData_result_self in Hin. }
  split; [exact Hout|]. intros b.
  unfold tree_item_clicked.
  cbn [update_final_prompt update_file_watcher with_final_prompt with_file_watcher
       with_model model].
  destruct (read_selected_spec host base
              (with_checked (setData_result (tree host) f Unchecked
                               (checked_indexes (model w))) (model w))) as [Hmem _].
  rewrite Hmem. cbn [with_checked checked_indexes extensions].
  assert (Hother : ∀ idx, isDir (tree host) idx = false → idx ≠ f →
            (idx ∈ setData_result (tree host) f Unchecked (checked_indexes (model w))
             ↔ idx ∈ checked_indexes (model w))).
  { intros idx Hi Hne. apply setData_result_other_file; [done|done|].
    rewrite (file_children_of_file (tree host) f Hd). apply not_elem_of_nil. }
  split.
  - intros (idx & content & Hin & Hi & Hv & Hr & ->).
    assert (Hne : idx ≠ f) by (intros ->; done).
    exists idx, content. split; [done|]. split; [by apply Hother|done].
  - intros (idx & content & Hne & Hin & Hi & Hv & Hr & ->).
    exists idx, content. split; [by apply Hother|done].
Qed.

Lemma unchecked_file_leaves_document_witness :
  ∃ w' : MainWindow,
    check_item Sample.host 2 Sample.a_py Unchecked Sample.selected = Some w' ∧
    (Sample.a_py ∉ checked_indexes (model w')) ∧
    ∀ b, b ∈ fst (read_selected Sample.host "/proj" (model w')) ↔
         ∃ idx content,
           idx ≠ Sample.a_py ∧ idx ∈ checked_indexes (model Sample.selected)
           ∧ isDir (tree Sample.host) idx = false
           ∧ index_valid (tree Sample.host) (extensions (model Sample.selected)) idx = true
           ∧ read_text Sample.host (filePath Sample.host idx) = Some content
           ∧ b = file_section
                   (os_relpath Sample.host (filePath Sample.host idx) "/proj") content.
Proof.
  apply (unchecked_file_leaves_document Sample.host 0 Sample.a_py Sample.selected "/proj").
  reflexivity.
Defined.

(* --------------------------------------------------------------------- *)
(* 23. The saved directory, and what every reached window satisfies       *)
(* --------------------------------------------------------------------- *)

(** A text without ['\r'] is read back as it was written. *)
Lemma universal_newlines_id (text : string) :
  no_carriage_return text = true → universal_newlines text = text.
Proof.
  induction text as [|c r IH]; [done|]. cbn [no_carriage_return universal_newlines].
  intros [Hc Hr]%andb_true_iff. apply negb_true_iff in Hc. rewrite Hc.
  by rewrite (IH Hr).
Qed.

(** X14: a directory chosen in one run is the base directory of the next:
    when the write to [last_directory.txt] succeeds, the name holds no
    ['\r'], which the read would turn into ['\n'], carries no whitespace
    at its ends and is still a directory, [__init__] on the saved file
    opens it; the selection set starts empty. *)
Theorem restart_restores_directory (host : Host) (directory : string) (w : MainWindow) :
  directory ≠ EmptyString →
  writable host (config_file host) = true →
  os_isdir host directory = true →
  no_carriage_return directory = true →
  strip directory = directory →
  base_directory
    (init host (last_directory_txt (select_base_directory host directory w)))
  = Some directory
  ∧ rootPath (model
      (init host (last_directory_txt (select_base_directory host directory w))))
    = directory
  ∧ tree_rootIndex
      (init host (last_directory_txt (select_base_directory host directory w)))
    = path_index host directory
  ∧ checked_indexes (model
      (init host (last_directory_txt (select_base_directory host directory w))))
    = ∅.
Proof.
  intros Hne Hw Hd Hcr Hs.
  assert (Hsaved : last_directory_txt (select_base_directory host directory w)
                   = Some directory).
  { unfold select_base_directory. destruct directory as [|c r]; [done|].
    cbn [is_empty]. unfold save_last_directory. by rewrite Hw. }
  rewrite Hsaved. unfold init, load_last_directory. cbn [last_directory_txt].
  by rewrite (universal_newlines_id directory Hcr), Hs, Hd.
Qed.

Lemma restart_restores_directory_witness :
  base_directory
    (init Sample.host
       (last_directory_txt (select_base_directory Sample.host "/proj" Sample.fresh)))
  = Some "/proj"%string
  ∧ rootPath (model
      (init Sample.host
         (last_directory_txt (select_base_directory Sample.host "/proj" Sample.fresh))))
    = "/proj"%string
  ∧ tree_rootIndex
      (init Sample.host
         (last_directory_txt (select_base_directory Sample.host "/proj" Sample.fresh)))
    = path_index Sample.host "/proj"
  ∧ checked_indexes (model
      (init Sample.host
         (last_directory_txt (select_base_directory Sample.host "/proj" Sample.fresh))))
    = ∅.
Proof.
  apply (restart_restores_directory Sample.host "/proj" Sample.fresh).
  - discriminate.
  - reflexivity.
  - reflexivity.
  - reflexivity.
  - reflexivity.
Defined.

(** X15: in every window the program reaches, the allow-list is the one
    of [__init__], the presets and task types are those loaded at start,
    the root of the model and of the view follow the base directory, and
    every valid directory with files among its children is checked exactly
    when one of those files is. *)
Theorem reached_window_invariants (host : Host) (w : MainWindow) :
  window_reachable host w →
  extensions (model w) = default_extensions
  ∧ tasktypes w = fst (load_tasktypes host)
  ∧ presets w = fst (load_presets host)
  ∧ (∀ d, base_directory w = Some d →
          rootPath (model w) = d ∧ tree_rootIndex w = path_index host d)
  ∧ consistent (tree host) (checked_indexes (model w)).
Proof.
  intros Hw.
  assert (Hfour : extensions (model w) = default_extensions
    ∧ tasktypes w = fst (load_tasktypes host)
    ∧ presets w = fst (load_presets host)
    ∧ (∀ d, base_directory w = Some d →
            rootPath (model w) = d ∧ tree_rootIndex w = path_index host d)).
  { induction Hw as [last|d w _ IH|fuel idx v w w' _ IH H|w _ IH|w _ IH
                    |fuel w w' _ IH H|fuel w w' _ IH H
                    |t w _ IH|b w _ IH|t w _ IH|b w _ IH|t w _ IH];
      try exact IH.
    - unfold init, load_last_directory. cbn [last_directory_txt].
      destruct last as [c|]; [|by do 3 (split; [done|])].
      destruct (os_isdir host (strip (universal_newlines c))); [|by do 3 (split; [done|])].
      do 3 (split; [done|]). by intros d [= <-].
    - unfold select_base_directory. destruct (is_empty d); [exact IH|].
      destruct IH as (He & Ht & Hp & _). unfold save_last_directory.
      destruct (writable host (config_file host));
        (do 3 (split; [done|]); by intros d' [= <-]).
    - unfold check_item in H.
      destruct (setData (tree host) fuel idx v (checked_indexes (model w)))
        as [s1|]; [|done].
      inversion H; subst. exact IH.
    - unfold select_all_files in H.
      destruct (negb (truthy (base_directory w))); [by inversion H; subst|].
      destruct (get_all_file_indexes _ _ _ _) as [files|]; [|done].
      cbn [mbind option_bind] in H.
      destruct (setData_each (tree host) fuel files Checked _) as [s1|]; [|done].
      inversion H; subst. exact IH.
    - unfold deselect_all_files in H.
      destruct (negb (truthy (base_directory w))); [by inversion H; subst|].
      destruct (get_all_file_indexes _ _ _ _) as [files|]; [|done].
      cbn [mbind option_bind] in H.
      destruct (setData_each (tree host) fuel files Unchecked _) as [s1|]; [|done].
      inversion H; subst. exact IH. }
  destruct Hfour as (He & Ht & Hp & Hb). do 4 (split; [done|]).
  by apply reachable_consistent, window_reachable_selection.
Qed.

Lemma reached_window_invariants_witness :
  extensions (model Sample.opened) = default_extensions
  ∧ tasktypes Sample.opened = fst (load_tasktypes Sample.host)
  ∧ presets Sample.opened = fst (load_presets Sample.host)
  ∧ (∀ d, base_directory Sample.opened = Some d →
          rootPath (model Sample.opened) = d
          ∧ tree_rootIndex Sample.opened = path_index Sample.host d)
  ∧ consistent (tree Sample.host) (checked_indexes (model Sample.opened)).
Proof.
  apply (reached_window_invariants Sample.host Sample.opened).
  apply reached_select_base_directory, reached_init.
Defined.

(** X16: the document the handlers last wrote is the one assembled from
    the window as it is, in every window the program reaches but the one
    [__init__] leaves. *)
Theorem reached_window_document (host : Host) (w : MainWindow) :
  window_reachable host w →
  (∃ last_directory, w = init host last_directory)
  ∨ final_prompt w = final_prompt_content host w.
Proof.
  induction 1 as [last|d w _ IH|fuel idx v w w' _ IH H|w _ IH|w _ IH
                  |fuel w w' _ IH H|fuel w w' _ IH H
                  |t w _ IH|b w _ IH|t w _ IH|b w _ IH|t w _ IH];
    try (right; reflexivity).
  - left. by exists last.
  - unfold select_base_directory. destruct (is_empty d); [exact IH|]. right.
    unfold save_last_directory. by destruct (writable host (config_file host)).
  - right. unfold check_item in H.
    destruct (setData (tree host) fuel idx v (checked_indexes (model w)))
      as [s1|]; [|done].
    by inversion H; subst.
  - unfold select_all_files in H.
    destruct (negb (truthy (base_directory w))); [by inversion H; subst|].
    destruct (get_all_file_indexes _ _ _ _) as [files|]; [|done].
    cbn [mbind option_bind] in H.
    destruct (setData_each (tree host) fuel files Checked _) as [s1|]; [|done].
    right. by inversion H; subst.
  - unfold deselect_all_files in H.
    destruct (negb (truthy (base_directory w))); [by inversion H; subst|].
    destruct (get_all_file_indexes _ _ _ _) as [files|]; [|done].
    cbn [mbind option_bind] in H.
    destruct (setData_each (tree host) fuel files Unchecked _) as [s1|]; [|done].
    right. by inversion H; subst.
Qed.

Lemma reached_window_document_witness :
  (∃ last_directory, Sample.opened = init Sample.host last_directory)
  ∨ final_prompt Sample.opened = final_prompt_content Sample.host Sample.opened.
Proof.
  apply (reached_window_document Sample.host Sample.opened).
  apply reached_select_base_directory, reached_init.
Defined.

(* --------------------------------------------------------------------- *)
(* 24. Names, labels and estimates                                        *)
(* --------------------------------------------------------------------- *)

Lemma is_dot_lower (c : ascii) : is_dot (ascii_lower c) = is_dot c.
Proof. by destruct c as [[] [] [] [] [] [] [] []]. Qed.

Lemma after_last_dot_lower (s : string) :
  after_last_dot (lower s) = lower <$> after_last_dot s.
Proof.
  induction s as [|c r IH]; [done|]. cbn [lower after_last_dot]. rewrite IH.
  destruct (after_last_dot r); [done|]. rewrite is_dot_lower.
  by destruct (is_dot c).
Qed.

Lemma suffix_lower (s : string) : suffix (lower s) = lower (suffix s).
Proof. unfold suffix. rewrite after_last_dot_lower. by destruct (after_last_dot s). Qed.

Lemma length_omap_le {A B : Type} (f : A → option B) (l : list A) :
  length (omap f l) ≤ length l.
Proof.
  induction l as [|x l IH]; [done|].
  change (omap f (x :: l))
    with (match f x with Some y => y :: omap f l | None => omap f l end).
  destruct (f x); cbn [length]; lia.
Qed.

Lemma number_of_words_zero (text : string) :
  number_of_words text = 0 ↔ all_space text = true.
Proof.
  unfold number_of_words. induction text as [|c r IH]; [done|].
  cbn [count_word_starts all_space]. destruct (isspace c); [exact IH|].
  cbn [andb negb]. split; [lia|done].
Qed.

(** X17: whether [index_valid] admits an entry depends on its name only
    up to letter case: two entries that are both files or both directories
    and whose names differ in case only are admitted or refused
    together. *)
Theorem index_valid_ignores_case
    (tree1 tree2 : Node) (exts : list string) (idx1 idx2 : Index) :
  isDir tree1 idx1 = isDir tree2 idx2 →
  lower (fileName tree1 idx1) = lower (fileName tree2 idx2) →
  index_valid tree1 exts idx1 = index_valid tree2 exts idx2.
Proof.
  intros Hd Hn. unfold index_valid. by rewrite <- !suffix_lower, Hn, Hd.
Qed.

Lemma index_valid_ignores_case_witness :
  index_valid Sample.proj_tree default_extensions Sample.b_py
  = index_valid (Dir "" [Dir "proj" [File "b.py"]]) default_extensions [0; 0].
Proof.
  apply (index_valid_ignores_case Sample.proj_tree (Dir "" [Dir "proj" [File "b.py"]])
           default_extensions Sample.b_py [0; 0]).
  - reflexivity.
  - reflexivity.
Defined.

(** X18: the number of files the difficulty level is computed from never
    exceeds the number of checked entries: at most two checked entries
    show [Easy], and [Hard] needs six of them. *)
Theorem difficulty_bounded_by_selection (host : Host) (base : string) (m : Model) :
  snd (read_selected host base m) ≤ size (checked_indexes m)
  ∧ (size (checked_indexes m) ≤ 2 →
     update_difficulty_level (snd (read_selected host base m)) = Easy)
  ∧ (update_difficulty_level (snd (read_selected host base m)) = Hard →
     6 ≤ size (checked_indexes m)).
Proof.
  assert (H : snd (read_selected host base m) ≤ size (checked_indexes m)).
  { unfold read_selected. rewrite read_loop_spec. cbn [snd]. apply length_omap_le. }
  split; [done|]. unfold update_difficulty_level. split.
  - intros Hs. destruct (Nat.leb_spec (snd (read_selected host base m)) 2); [done|lia].
  - destruct (Nat.leb_spec (snd (read_selected host base m)) 2); [done|].
    destruct (Nat.leb_spec 3 (snd (read_selected host base m))); [|lia].
    destruct (Nat.leb_spec (snd (read_selected host base m)) 5); [done|].
    intros _. lia.
Qed.

Lemma difficulty_bounded_by_selection_witness :
  update_difficulty_level
    (snd (read_selected Sample.host "/proj" (model Sample.marked))) = Easy.
Proof.
  destruct (difficulty_bounded_by_selection Sample.host "/proj" (model Sample.marked))
    as (_ & H & _).
  apply H. by vm_compute.
Defined.

(** X19: a text of whitespace only, the empty text included, has no words
    and is estimated at zero tokens; among the texts of fewer than
    [2 ^ 49] words no other text is. *)
Theorem blank_text_has_no_tokens (text : string) :
  (all_space text = true ↔ split text = [])
  ∧ (all_space text = true → update_token_count text = Some 0%Z)
  ∧ ((Z.of_nat (number_of_words text) < 2 ^ 49)%Z →
     update_token_count text = Some 0%Z → all_space text = true).
Proof.
  split; [|split].
  - rewrite <- number_of_words_zero, <- split_length. split.
    + by intros ?%nil_length_inv.
    + by intros ->.
  - intros H%number_of_words_zero. unfold update_token_count.
    by rewrite split_length, H.
  - intros Hn. unfold update_token_count. rewrite split_length.
    rewrite int_of_mul_1_2 by lia. intros [= H0]. apply number_of_words_zero.
    apply Z.div_small_iff in H0; lia.
Qed.

Lemma blank_text_has_no_tokens_witness :
  update_token_count (String " " (String "009" (String " " EmptyString))) = Some 0%Z.
Proof.
  destruct (blank_text_has_no_tokens
              (String " " (String "009" (String " " EmptyString)))) as (_ & H & _).
  apply H. reflexivity.
Defined.
